(** * A shallow embedding of [src/App.tsx]

    The component [App] of the note-taking application keeps two ordered
    collections (notes and tags) and a few selection flags in React state,
    derives a filtered and sorted view of the notes, and mirrors both
    collections to [localStorage] through three effects.

    Conventions of the embedding:
    - a JavaScript string is the list of its UTF-16 code units;
    - [string | null] is [option jsstring], with [None] for [null];
    - a call that may throw returns a [completion];
    - builtins whose result the runtime fixes but the source does not
      ([String.prototype.toLowerCase], [Date] parsing) are section variables,
      so every theorem holds for whatever the runtime computes;
    - values read from the environment ([crypto.randomUUID()], the clock, the
      answers of [localStorage]) are explicit inputs;
    - a state cell holds a value of the type it declares; where the load
      effect hands a setter a parsed value of another shape, the call is
      recorded as such and there is no state to go on with ([mount] is
      [None]). *)

From Stdlib Require Import List ZArith NArith Lia Bool Ascii.
From Stdlib Require String.
Import String.StringSyntax.
Open Scope string_scope.
Open Scope list_scope.
From Stdlib Require Import Permutation Sorted.
Import ListNotations.

Set Implicit Arguments.
Set Warnings "-register-all".

(* ================================================================== *)
(** * JavaScript values used by the component *)
(* ================================================================== *)

Module JS.

(** A string is a sequence of 16-bit code units. *)
Definition jsstring : Type := list N.

(** The code units of an ASCII literal. *)
Definition js (s : String.string) : jsstring :=
  List.map N_of_ascii (String.list_ascii_of_string s).

(** [a === b] on strings. *)
Fixpoint strictEq (a b : jsstring) : bool :=
  match a, b with
  | [], [] => true
  | x :: a', y :: b' => N.eqb x y && strictEq a' b'
  | _, _ => false
  end.

(** [a === b] where either side may be [null]. *)
Definition strictEqNullable (a b : option jsstring) : bool :=
  match a, b with
  | None, None => true
  | Some x, Some y => strictEq x y
  | _, _ => false
  end.

(** [ToBoolean] of a string: only the empty string is falsy. *)
Definition truthy (s : jsstring) : bool :=
  match s with
  | [] => false
  | _ :: _ => true
  end.

(** [ToBoolean] of a [string | null]: [null] and the empty string are falsy. *)
Definition truthyNullable (s : option jsstring) : bool :=
  match s with
  | None => false
  | Some v => truthy v
  end.

(** Does [s] start with [search]? *)
Fixpoint startsWith (search s : jsstring) : bool :=
  match search, s with
  | [], _ => true
  | c :: search', d :: s' => N.eqb c d && startsWith search' s'
  | _ :: _, [] => false
  end.

(** [s.includes(search)]: [search] occurs in [s] at some index. *)
Fixpoint String_includes (s search : jsstring) : bool :=
  startsWith search s ||
  match s with
  | [] => false
  | _ :: s' => String_includes s' search
  end.

(** [arr.includes(x)] on an array of strings. *)
Definition Array_includes (arr : list jsstring) (x : jsstring) : bool :=
  existsb (strictEq x) arr.

(** A JavaScript number as far as the comparator needs it: an integer or
    [NaN] ([None]).  Time values are integers of magnitude at most 8.64e15;
    the sign of the floating-point difference of two of them is the sign of
    the exact difference, and the sort reads only that sign. *)
Definition number : Type := option Z.

Definition minus (a b : number) : number :=
  match a, b with
  | Some x, Some y => Some (x - y)%Z
  | _, _ => None
  end.

Section Sort.
Variable A : Type.
Variable comparefn : A -> A -> number.

(** [SortCompare]: a [NaN] from the comparator counts as [+0]. *)
Definition SortCompare (x y : A) : Z :=
  match comparefn x y with
  | None => 0%Z
  | Some v => v
  end.

(** Insert [x], which came before every element of [l] in the input. *)
Fixpoint sortInsert (x : A) (l : list A) : list A :=
  match l with
  | [] => [x]
  | y :: l' =>
      if (SortCompare x y <=? 0)%Z then x :: y :: l'
      else y :: sortInsert x l'
  end.

(** [arr.sort(comparefn)].  ECMAScript leaves the algorithm open but asks
    for a stable sort; for a consistent comparator the result is then
    determined (see [Array_sort_unique]), and this insertion sort computes
    it. *)
Fixpoint Array_sort (l : list A) : list A :=
  match l with
  | [] => []
  | x :: l' => sortInsert x (Array_sort l')
  end.

End Sort.

(** The outcome of a call that may throw. *)
Inductive completion (A : Type) : Type :=
| Returned (a : A)
| Thrown (error : jsstring).
Arguments Returned {A} a.
Arguments Thrown {A} error.

(** [toLowerCase] restricted to what it does on ASCII letters; used to run
    the definitions on examples. *)
Definition asciiToLowerCase (s : jsstring) : jsstring :=
  List.map (fun c => if (65 <=? c)%N && (c <=? 90)%N then (c + 32)%N else c) s.

(** ** Reading the timestamps that [toISOString] writes

    [isoGetTime] reads [YYYY-MM-DDTHH:mm:ss.sssZ] and returns the
    milliseconds since the epoch; every other text is an invalid date.  It
    stands for [new Date(s).getTime()] on examples. *)

Definition digit (c : N) : option Z :=
  if (48 <=? c)%N && (c <=? 57)%N then Some (Z.of_N c - 48)%Z else None.

Fixpoint digits (acc : Z) (s : jsstring) : option Z :=
  match s with
  | [] => Some acc
  | c :: s' =>
      match digit c with
      | Some d => digits (10 * acc + d)%Z s'
      | None => None
      end
  end.

Definition isLeapYear (y : Z) : bool :=
  ((y mod 4 =? 0) && negb (y mod 100 =? 0) || (y mod 400 =? 0))%Z.

Definition daysInMonth (y m : Z) : Z :=
  if (m =? 2)%Z then (if isLeapYear y then 29 else 28)%Z
  else if ((m =? 4) || (m =? 6) || (m =? 9) || (m =? 11))%Z then 30%Z
  else 31%Z.

(** Days from 1970-01-01 to the civil date [y]-[m]-[d]. *)
Definition daysFromCivil (y m d : Z) : Z :=
  let y' := (if m <=? 2 then y - 1 else y)%Z in
  let era := (y' / 400)%Z in
  let yoe := (y' - era * 400)%Z in
  let mp := ((m + 9) mod 12)%Z in
  let doy := ((153 * mp + 2) / 5 + d - 1)%Z in
  let doe := (yoe * 365 + yoe / 4 - yoe / 100 + doy)%Z in
  (era * 146097 + doe - 719468)%Z.

Definition isoGetTime (s : jsstring) : number :=
  match s with
  | [y1; y2; y3; y4; 45; m1; m2; 45; d1; d2; 84;
     h1; h2; 58; i1; i2; 58; s1; s2; 46; f1; f2; f3; 90]%N =>
      match digits 0 [y1; y2; y3; y4], digits 0 [m1; m2], digits 0 [d1; d2],
            digits 0 [h1; h2], digits 0 [i1; i2], digits 0 [s1; s2],
            digits 0 [f1; f2; f3] with
      | Some y, Some m, Some d, Some h, Some mi, Some sec, Some ms =>
          if ((1 <=? m) && (m <=? 12) && (1 <=? d) && (d <=? daysInMonth y m)
              && (h <=? 23) && (mi <=? 59) && (sec <=? 59))%Z
          then Some (((((daysFromCivil y m d) * 24 + h) * 60 + mi) * 60 + sec)
                       * 1000 + ms)%Z
          else None
      | _, _, _, _, _, _, _ => None
      end
  | _ => None
  end.

End JS.

Import JS.

(* ================================================================== *)
(** * [JSON.stringify] and [JSON.parse] *)
(* ================================================================== *)

Module JSON.

(** A parsed JSON text.  An object keeps its members as written; a number
    keeps its literal, since no field of a note or of a tag is a number. *)
Inductive value : Type :=
| JNull
| JBool (b : bool)
| JNumber (literal : jsstring)
| JString (s : jsstring)
| JArray (elements : list value)
| JObject (members : list (jsstring * value)).

(** ** Serialization *)

(** The code unit of the lower-case hexadecimal digit of [n < 16]. *)
Definition hexDigit (n : N) : N :=
  if (n <? 10)%N then (48 + n)%N else (87 + n)%N.

(** [UnicodeEscape]: [\uXXXX]. *)
Definition UnicodeEscape (c : N) : jsstring :=
  [92; 117; hexDigit ((c / 4096) mod 16); hexDigit ((c / 256) mod 16);
   hexDigit ((c / 16) mod 16); hexDigit (c mod 16)]%N.

Definition isLeadSurrogate (c : N) : bool := (55296 <=? c)%N && (c <=? 56319)%N.
Definition isTrailSurrogate (c : N) : bool := (56320 <=? c)%N && (c <=? 57343)%N.

(** The text of one code unit that is not a surrogate. *)
Definition quoteUnit (c : N) : jsstring :=
  if (c =? 8)%N then [92; 98]%N
  else if (c =? 9)%N then [92; 116]%N
  else if (c =? 10)%N then [92; 110]%N
  else if (c =? 12)%N then [92; 102]%N
  else if (c =? 13)%N then [92; 114]%N
  else if (c =? 34)%N then [92; 34]%N
  else if (c =? 92)%N then [92; 92]%N
  else if (c <? 32)%N then UnicodeEscape c
  else [c].

(** The inside of [QuoteJSONString]: a surrogate pair is copied, a lone
    surrogate is escaped, every other code unit goes through [quoteUnit]. *)
Fixpoint quoteUnits (s : jsstring) : jsstring :=
  match s with
  | [] => []
  | c :: s' =>
      if isLeadSurrogate c then
        match s' with
        | d :: s'' =>
            if isTrailSurrogate d then c :: d :: quoteUnits s''
            else UnicodeEscape c ++ quoteUnits s'
        | [] => UnicodeEscape c
        end
      else if isTrailSurrogate c then UnicodeEscape c ++ quoteUnits s'
      else quoteUnit c ++ quoteUnits s'
  end.

Definition QuoteJSONString (s : jsstring) : jsstring :=
  34%N :: quoteUnits s ++ [34%N].

(** The texts [parts] with a comma between neighbours. *)
Fixpoint joinComma (parts : list jsstring) : jsstring :=
  match parts with
  | [] => []
  | [p] => p
  | p :: rest => p ++ 44%N :: joinComma rest
  end.

(** [SerializeJSONArray] without indentation, from the texts of the
    elements. *)
Definition SerializeJSONArray (elements : list jsstring) : jsstring :=
  91%N :: joinComma elements ++ [93%N].

(** [SerializeJSONObject] without indentation, from the keys and the texts
    of the values. *)
Definition SerializeJSONObject (members : list (jsstring * jsstring))
    : jsstring :=
  123%N :: joinComma (List.map (fun m => QuoteJSONString (fst m) ++ 58%N :: snd m)
                               members) ++ [125%N].

(** ** Parsing *)

(** What a parser returns: a result and the text left, a syntax error, or
    the exhaustion of its recursion budget. *)
Inductive presult (A : Type) : Type :=
| POk (a : A) (rest : jsstring)
| PError
| PFuel.
Arguments POk {A} a rest.
Arguments PError {A}.
Arguments PFuel {A}.

Definition pmap (A B : Type) (f : A -> B) (r : presult A) : presult B :=
  match r with
  | POk a rest => POk (f a) rest
  | PError => PError
  | PFuel => PFuel
  end.

Definition isWs (c : N) : bool :=
  ((c =? 9) || (c =? 10) || (c =? 13) || (c =? 32))%N.

Fixpoint skipWs (s : jsstring) : jsstring :=
  match s with
  | c :: s' => if isWs c then skipWs s' else s
  | [] => []
  end.

Definition hexValue (c : N) : option N :=
  if (48 <=? c)%N && (c <=? 57)%N then Some (c - 48)%N
  else if (97 <=? c)%N && (c <=? 102)%N then Some (c - 87)%N
  else if (65 <=? c)%N && (c <=? 70)%N then Some (c - 55)%N
  else None.

(** The character an escape letter stands for. *)
Definition escapeChar (e : N) : option N :=
  if (e =? 34)%N then Some 34%N
  else if (e =? 92)%N then Some 92%N
  else if (e =? 47)%N then Some 47%N
  else if (e =? 98)%N then Some 8%N
  else if (e =? 102)%N then Some 12%N
  else if (e =? 110)%N then Some 10%N
  else if (e =? 114)%N then Some 13%N
  else if (e =? 116)%N then Some 9%N
  else None.

(** A string after its opening quote: the code units up to the closing
    quote, escapes resolved, and the text after it. *)
Fixpoint parseStringBody (s : jsstring) : option (jsstring * jsstring) :=
  match s with
  | [] => None
  | c :: s1 =>
      if (c =? 34)%N then Some ([], s1)
      else if (c =? 92)%N then
        match s1 with
        | [] => None
        | e :: s2 =>
            if (e =? 117)%N then
              match s2 with
              | h1 :: h2 :: h3 :: h4 :: s3 =>
                  match hexValue h1, hexValue h2, hexValue h3, hexValue h4,
                        parseStringBody s3 with
                  | Some a, Some b, Some c', Some d, Some (str, rest) =>
                      Some ((4096 * a + 256 * b + 16 * c' + d)%N :: str, rest)
                  | _, _, _, _, _ => None
                  end
              | _ => None
              end
            else
              match escapeChar e, parseStringBody s2 with
              | Some u, Some (str, rest) => Some (u :: str, rest)
              | _, _ => None
              end
        end
      else if (c <? 32)%N then None
      else
        match parseStringBody s1 with
        | Some (str, rest) => Some (c :: str, rest)
        | None => None
        end
  end.

Definition isDigit (c : N) : bool := (48 <=? c)%N && (c <=? 57)%N.

(** The longest run of digits at the start of [s], and the text after it. *)
Fixpoint spanDigits (s : jsstring) : jsstring * jsstring :=
  match s with
  | c :: s' =>
      if isDigit c then let (ds, rest) := spanDigits s' in (c :: ds, rest)
      else ([], s)
  | [] => ([], [])
  end.

(** A number literal: [-]? ([0] | [1-9] digits) ([.] digits+)?
    ([eE] [+-]? digits+)?.  Each part returns what it read and the text
    after it. *)
Definition numberSign (s : jsstring) : jsstring * jsstring :=
  match s with
  | c :: r => if (c =? 45)%N then ([c], r) else ([], s)
  | [] => ([], s)
  end.

Definition numberInt (s : jsstring) : option (jsstring * jsstring) :=
  match s with
  | c :: r =>
      if isDigit c then
        if (c =? 48)%N then Some ([c], r)
        else let (ds, r') := spanDigits r in Some (c :: ds, r')
      else None
  | [] => None
  end.

Definition numberFrac (s : jsstring) : option (jsstring * jsstring) :=
  match s with
  | p :: r =>
      if (p =? 46)%N then
        match spanDigits r with
        | ([], _) => None
        | (ds, r') => Some (p :: ds, r')
        end
      else Some ([], s)
  | [] => Some ([], s)
  end.

Definition numberExp (s : jsstring) : option (jsstring * jsstring) :=
  match s with
  | e :: r =>
      if (e =? 101)%N || (e =? 69)%N then
        let (sg, r1) := match r with
                        | g :: r' => if (g =? 43)%N || (g =? 45)%N
                                     then ([g], r') else ([], r)
                        | [] => ([], r)
                        end in
        match spanDigits r1 with
        | ([], _) => None
        | (ds, r2) => Some (e :: sg ++ ds, r2)
        end
      else Some ([], s)
  | [] => Some ([], s)
  end.

Definition parseNumber (s : jsstring) : presult value :=
  let (sign, s1) := numberSign s in
  match numberInt s1 with
  | None => PError
  | Some (int, s2) =>
      match numberFrac s2 with
      | None => PError
      | Some (fr, s3) =>
          match numberExp s3 with
          | None => PError
          | Some (ex, s4) => POk (JNumber (sign ++ int ++ fr ++ ex)) s4
          end
      end
  end.

Section Containers.
Variable parseValue : jsstring -> presult value.

(** The elements of an array after the first has been found to exist, up to
    and including the closing bracket; [n] bounds the number of elements. *)
Fixpoint parseElements (n : nat) (s : jsstring) : presult (list value) :=
  match n with
  | 0 => PFuel
  | S n' =>
      match parseValue s with
      | POk v r =>
          match skipWs r with
          | c :: r' =>
              if (c =? 44)%N then pmap (cons v) (parseElements n' r')
              else if (c =? 93)%N then POk [v] r'
              else PError
          | [] => PError
          end
      | PError => PError
      | PFuel => PFuel
      end
  end.

(** The members of an object, from a key up to and including the closing
    brace; [n] bounds the number of members. *)
Fixpoint parseMembers (n : nat) (s : jsstring)
    : presult (list (jsstring * value)) :=
  match n with
  | 0 => PFuel
  | S n' =>
      match skipWs s with
      | q :: r =>
          if (q =? 34)%N then
            match parseStringBody r with
            | Some (k, r1) =>
                match skipWs r1 with
                | c :: r2 =>
                    if (c =? 58)%N then
                      match parseValue r2 with
                      | POk v r3 =>
                          match skipWs r3 with
                          | d :: r4 =>
                              if (d =? 44)%N
                              then pmap (cons (k, v)) (parseMembers n' r4)
                              else if (d =? 125)%N then POk [(k, v)] r4
                              else PError
                          | [] => PError
                          end
                      | PError => PError
                      | PFuel => PFuel
                      end
                    else PError
                | [] => PError
                end
            | None => PError
            end
          else PError
      | [] => PError
      end
  end.

End Containers.

(** A JSON value at the start of [s], after optional white space; [depth]
    bounds the nesting of arrays and objects. *)
Fixpoint parseValue (depth : nat) (s : jsstring) : presult value :=
  match depth with
  | 0 => PFuel
  | S d =>
      match skipWs s with
      | [] => PError
      | c :: r =>
          if (c =? 34)%N then
            match parseStringBody r with
            | Some (str, rest) => POk (JString str) rest
            | None => PError
            end
          else if (c =? 91)%N then
            match skipWs r with
            | e :: r' =>
                if (e =? 93)%N then POk (JArray []) r'
                else pmap JArray (parseElements (parseValue d) (List.length r) r)
            | [] => PError
            end
          else if (c =? 123)%N then
            match skipWs r with
            | e :: r' =>
                if (e =? 125)%N then POk (JObject []) r'
                else pmap JObject (parseMembers (parseValue d) (List.length r) r)
            | [] => PError
            end
          else if startsWith (js "true") (c :: r)
          then POk (JBool true) (skipn 4 (c :: r))
          else if startsWith (js "false") (c :: r)
          then POk (JBool false) (skipn 5 (c :: r))
          else if startsWith (js "null") (c :: r)
          then POk JNull (skipn 4 (c :: r))
          else parseNumber (c :: r)
      end
  end.

(** [JSON.parse(text)] without a reviver: the value of the text, or a
    [SyntaxError].  The budget is never exhausted (see
    [parseValue_enough_fuel]). *)
Definition parse (text : jsstring) : completion value :=
  match parseValue (S (List.length text)) text with
  | POk v rest =>
      match skipWs rest with
      | [] => Returned v
      | _ :: _ => Thrown (js "SyntaxError")
      end
  | PError => Thrown (js "SyntaxError")
  | PFuel => Thrown (js "SyntaxError")
  end.

(** [obj[key]] for a parsed object: of several members with one key the last
    counts. *)
Fixpoint lookup (key : jsstring) (members : list (jsstring * value))
    : option value :=
  match members with
  | [] => None
  | (k, v) :: rest =>
      match lookup key rest with
      | Some v' => Some v'
      | None => if strictEq k key then Some v else None
      end
  end.

End JSON.

(* ================================================================== *)
(** * The data model ([./types]: [Note] and [Tag]) *)
(* ================================================================== *)

Module Note.
Record t : Type := mk {
  id : jsstring;
  title : jsstring;
  content : jsstring;
  tags : list jsstring;
  createdAt : jsstring;
  updatedAt : jsstring
}.
End Note.
Abbreviation Note := Note.t.

Module Tag.
Record t : Type := mk {
  id : jsstring;
  name : jsstring
}.
End Tag.
Abbreviation Tag := Tag.t.

(* ================================================================== *)
(** * The filtered and sorted view ([filteredNotes]) *)
(* ================================================================== *)

Section View.
Variable toLowerCase : jsstring -> jsstring.
(** [Date_getTime s] is [new Date(s).getTime()]. *)
Variable Date_getTime : jsstring -> number.

(** The callback given to [notes.filter]. *)
Definition keepNote (activeTagId : option jsstring) (searchTerm : jsstring)
    (note : Note) : bool :=
  if truthyNullable activeTagId &&
     negb (match activeTagId with
           | Some t => Array_includes (Note.tags note) t
           | None => false
           end)
  then false
  else if truthy searchTerm
          && negb (String_includes (toLowerCase (Note.title note))
                                   (toLowerCase searchTerm))
          && negb (String_includes (toLowerCase (Note.content note))
                                   (toLowerCase searchTerm))
  then false
  else true.

(** The comparator given to [sort]. *)
Definition byUpdatedAtDesc (a b : Note) : number :=
  minus (Date_getTime (Note.updatedAt b)) (Date_getTime (Note.updatedAt a)).

Definition filteredNotes (notes : list Note) (activeTagId : option jsstring)
    (searchTerm : jsstring) : list Note :=
  Array_sort byUpdatedAtDesc (filter (keepNote activeTagId searchTerm) notes).

End View.

(* ================================================================== *)
(** * The component state and its handlers *)
(* ================================================================== *)

(** The eight [useState] cells of [App]. *)
Record AppState : Type := mkState {
  notes : list Note;
  tags : list Tag;
  activeNoteId : option jsstring;
  activeTagId : option jsstring;
  searchTerm : jsstring;
  isSidebarOpen : bool;
  isInitialized : bool;
  isAskGeminiModalOpen : bool
}.

(** The values the cells are created with. *)
Definition initialState : AppState :=
  {| notes := []; tags := []; activeNoteId := None; activeTagId := None;
     searchTerm := []; isSidebarOpen := false; isInitialized := false;
     isAskGeminiModalOpen := false |}.

(** A call of one of the eight state setters.  [setNotes] and [setTags] are
    given either an updater of the previous value or (in the load effect) the
    new value, which is the constant updater. *)
Inductive SetStateAction : Type :=
| SetNotes (update : list Note -> list Note)
| SetTags (update : list Tag -> list Tag)
| SetActiveNoteId (v : option jsstring)
| SetActiveTagId (v : option jsstring)
| SetSearchTerm (v : jsstring)
| SetIsSidebarOpen (v : bool)
| SetIsInitialized (v : bool)
| SetIsAskGeminiModalOpen (v : bool).

(** React applies a queued setter call to the state. *)
Definition applyAction (s : AppState) (a : SetStateAction) : AppState :=
  match a with
  | SetNotes update =>
      mkState (update (notes s)) (tags s) (activeNoteId s) (activeTagId s)
        (searchTerm s) (isSidebarOpen s) (isInitialized s)
        (isAskGeminiModalOpen s)
  | SetTags update =>
      mkState (notes s) (update (tags s)) (activeNoteId s) (activeTagId s)
        (searchTerm s) (isSidebarOpen s) (isInitialized s)
        (isAskGeminiModalOpen s)
  | SetActiveNoteId v =>
      mkState (notes s) (tags s) v (activeTagId s)
        (searchTerm s) (isSidebarOpen s) (isInitialized s)
        (isAskGeminiModalOpen s)
  | SetActiveTagId v =>
      mkState (notes s) (tags s) (activeNoteId s) v
        (searchTerm s) (isSidebarOpen s) (isInitialized s)
        (isAskGeminiModalOpen s)
  | SetSearchTerm v =>
      mkState (notes s) (tags s) (activeNoteId s) (activeTagId s)
        v (isSidebarOpen s) (isInitialized s) (isAskGeminiModalOpen s)
  | SetIsSidebarOpen v =>
      mkState (notes s) (tags s) (activeNoteId s) (activeTagId s)
        (searchTerm s) v (isInitialized s) (isAskGeminiModalOpen s)
  | SetIsInitialized v =>
      mkState (notes s) (tags s) (activeNoteId s) (activeTagId s)
        (searchTerm s) (isSidebarOpen s) v (isAskGeminiModalOpen s)
  | SetIsAskGeminiModalOpen v =>
      mkState (notes s) (tags s) (activeNoteId s) (activeTagId s)
        (searchTerm s) (isSidebarOpen s) (isInitialized s) v
  end.

(** The queued calls of one event, applied in the order they were made. *)
Definition applyActions (actions : list SetStateAction) (s : AppState)
    : AppState :=
  fold_left applyAction actions s.

(** The note [handleAddNote] builds.  [uuid] is what [crypto.randomUUID()]
    returned; [createdNow] and [updatedNow] are what the two evaluations of
    [new Date().toISOString()] returned, in that order. *)
Definition newNote (render : AppState) (uuid createdNow updatedNow : jsstring)
    : Note :=
  Note.mk uuid [] []
    (match activeTagId render with
     | Some t => if truthy t then [t] else []
     | None => []
     end)
    createdNow updatedNow.

(** [handleAddNote], closed over the [activeTagId] of the render [render]. *)
Definition handleAddNote (render : AppState)
    (uuid createdNow updatedNow : jsstring) : list SetStateAction :=
  let n := newNote render uuid createdNow updatedNow in
  [SetNotes (fun prev => n :: prev); SetActiveNoteId (Some (Note.id n))].

(** [handleSaveNote]. *)
Definition handleSaveNote (updatedNote : Note) : list SetStateAction :=
  [SetNotes (fun prev =>
     List.map (fun n => if strictEq (Note.id n) (Note.id updatedNote)
                        then updatedNote else n) prev)].

(** [handleDeleteNote], closed over the [activeNoteId] of the render. *)
Definition handleDeleteNote (render : AppState) (noteId : jsstring)
    : list SetStateAction :=
  SetNotes (fun prev =>
     filter (fun n => negb (strictEq (Note.id n) noteId)) prev)
  :: (if strictEqNullable (activeNoteId render) (Some noteId)
      then [SetActiveNoteId None] else []).

(** [handleAddTag]: the queued calls and the returned record. *)
Definition handleAddTag (uuid tagName : jsstring)
    : list SetStateAction * Tag :=
  let newTag := Tag.mk uuid tagName in
  ([SetTags (fun prev => prev ++ [newTag])], newTag).

(** [handleSelectTag]. *)
Definition handleSelectTag (tagId : option jsstring) : list SetStateAction :=
  [SetActiveTagId tagId; SetIsSidebarOpen false].

(** [activeNote]: [notes.find(n => n.id === activeNoteId)]. *)
Definition activeNote (s : AppState) : option Note :=
  find (fun n => strictEqNullable (Some (Note.id n)) (activeNoteId s)) (notes s).

(** What the user can do through the rendered tree: every callback [App]
    hands to its children, with the values the environment supplies. *)
Inductive Event : Type :=
| AddNote (uuid createdNow updatedNow : jsstring)
| SaveNote (updatedNote : Note)
| DeleteNote (noteId : jsstring)
| AddTag (uuid tagName : jsstring)
| SelectTag (tagId : option jsstring)
| SelectNote (noteId : option jsstring)
| SearchChange (term : jsstring)
| SidebarOpen (open : bool)
| AskGeminiOpen (open : bool).

(** The setter calls an event makes, from the closures of the last render. *)
Definition handle (render : AppState) (e : Event) : list SetStateAction :=
  match e with
  | AddNote uuid createdNow updatedNow =>
      handleAddNote render uuid createdNow updatedNow
  | SaveNote updatedNote => handleSaveNote updatedNote
  | DeleteNote noteId => handleDeleteNote render noteId
  | AddTag uuid tagName => fst (handleAddTag uuid tagName)
  | SelectTag tagId => handleSelectTag tagId
  | SelectNote noteId => [SetActiveNoteId noteId]
  | SearchChange term => [SetSearchTerm term]
  | SidebarOpen open => [SetIsSidebarOpen open]
  | AskGeminiOpen open => [SetIsAskGeminiModalOpen open]
  end.

(** The state of the render that follows an event. *)
Definition dispatch (e : Event) (s : AppState) : AppState :=
  applyActions (handle s e) s.

(** The events of the note collection controller. *)
Definition isNoteOp (e : Event) : bool :=
  match e with
  | AddNote _ _ _ | SaveNote _ | DeleteNote _ => true
  | _ => false
  end.

(** The identifiers of the notes, in order. *)
Definition noteIds (s : AppState) : list jsstring :=
  List.map Note.id (notes s).

(** An event whose generated note identifier, if it generates one, is not
    the identifier of a note of [s]. *)
Definition generatesFresh (s : AppState) (e : Event) : Prop :=
  match e with
  | AddNote uuid _ _ => ~ In uuid (noteIds s)
  | _ => True
  end.

(** The states a sequence of events leads to from [s0], every generated
    identifier being fresh when it is generated. *)
Inductive reachable (s0 : AppState) : AppState -> Prop :=
| reachable_start : reachable s0 s0
| reachable_step s e :
    reachable s0 s -> generatesFresh s e -> reachable s0 (dispatch e s).

(** The same, along an explicit list of events. *)
Fixpoint allFresh (s : AppState) (events : list Event) : Prop :=
  match events with
  | [] => True
  | e :: rest => generatesFresh s e /\ allFresh (dispatch e s) rest
  end.

Definition dispatchAll (events : list Event) (s : AppState) : AppState :=
  fold_left (fun st e => dispatch e st) events s.

(* ================================================================== *)
(** * The two collections as JSON *)
(* ================================================================== *)

Import JSON.

(** [JSON.stringify] of a note: its six own properties in the order
    [handleAddNote] creates them. *)
Definition stringifyNote (n : Note) : jsstring :=
  SerializeJSONObject
    [(js "id", QuoteJSONString (Note.id n));
     (js "title", QuoteJSONString (Note.title n));
     (js "content", QuoteJSONString (Note.content n));
     (js "tags", SerializeJSONArray (List.map QuoteJSONString (Note.tags n)));
     (js "createdAt", QuoteJSONString (Note.createdAt n));
     (js "updatedAt", QuoteJSONString (Note.updatedAt n))].

(** [JSON.stringify(notes)]. *)
Definition JSON_stringify_notes (l : list Note) : jsstring :=
  SerializeJSONArray (List.map stringifyNote l).

Definition stringifyTag (t : Tag) : jsstring :=
  SerializeJSONObject
    [(js "id", QuoteJSONString (Tag.id t));
     (js "name", QuoteJSONString (Tag.name t))].

(** [JSON.stringify(tags)]. *)
Definition JSON_stringify_tags (l : list Tag) : jsstring :=
  SerializeJSONArray (List.map stringifyTag l).

(** The JSON value of a note, of a tag and of the collections. *)
Definition noteValue (n : Note) : value :=
  JObject
    [(js "id", JString (Note.id n));
     (js "title", JString (Note.title n));
     (js "content", JString (Note.content n));
     (js "tags", JArray (List.map JString (Note.tags n)));
     (js "createdAt", JString (Note.createdAt n));
     (js "updatedAt", JString (Note.updatedAt n))].

Definition notesValue (l : list Note) : value := JArray (List.map noteValue l).

Definition tagValue (t : Tag) : value :=
  JObject [(js "id", JString (Tag.id t)); (js "name", JString (Tag.name t))].

Definition tagsValue (l : list Tag) : value := JArray (List.map tagValue l).

(** The load effect hands what [JSON.parse] returns to [setNotes] and
    [setTags] unchecked.  [asNotes] and [asTags] read a parsed value at the
    type the state cell declares; they are [None] on a value of another
    shape, which the typed state cannot hold. *)
Definition asString (v : value) : option jsstring :=
  match v with
  | JString s => Some s
  | _ => None
  end.

Fixpoint traverse (A B : Type) (f : A -> option B) (l : list A)
    : option (list B) :=
  match l with
  | [] => Some []
  | x :: l' =>
      match f x, traverse f l' with
      | Some y, Some ys => Some (y :: ys)
      | _, _ => None
      end
  end.

Definition asStrings (v : value) : option (list jsstring) :=
  match v with
  | JArray l => traverse asString l
  | _ => None
  end.

Definition field (A : Type) (read : value -> option A) (key : jsstring)
    (members : list (jsstring * value)) : option A :=
  match lookup key members with
  | Some v => read v
  | None => None
  end.

Definition asNote (v : value) : option Note :=
  match v with
  | JObject m =>
      match field asString (js "id") m, field asString (js "title") m,
            field asString (js "content") m, field asStrings (js "tags") m,
            field asString (js "createdAt") m,
            field asString (js "updatedAt") m with
      | Some i, Some t, Some c, Some tg, Some ca, Some ua =>
          Some (Note.mk i t c tg ca ua)
      | _, _, _, _, _, _ => None
      end
  | _ => None
  end.

Definition asNotes (v : value) : option (list Note) :=
  match v with
  | JArray l => traverse asNote l
  | _ => None
  end.

Definition asTag (v : value) : option Tag :=
  match v with
  | JObject m =>
      match field asString (js "id") m, field asString (js "name") m with
      | Some i, Some n => Some (Tag.mk i n)
      | _, _ => None
      end
  | _ => None
  end.

Definition asTags (v : value) : option (list Tag) :=
  match v with
  | JArray l => traverse asTag l
  | _ => None
  end.

(* ================================================================== *)
(** * The effects *)
(* ================================================================== *)

(** How [localStorage] answers during one step: what [getItem] returns or
    throws for a key, and whether [setItem] throws. *)
Record World : Type := mkWorld {
  getItem : jsstring -> completion (option jsstring);
  setItem : jsstring -> jsstring -> completion unit
}.

(** The two cells the load effect fills. *)
Inductive Cell : Type :=
| NotesCell
| TagsCell.

(** A call an effect or a handler makes that outlives it.  [SetForeignCall]
    is a call of [setNotes] or [setTags] with a value of another shape than
    the type of the cell: the load effect hands over what [JSON.parse]
    returned, whatever it is. *)
Inductive Call : Type :=
| SetStateCall (a : SetStateAction)
| SetForeignCall (cell : Cell) (v : value)
| SetItemCall (key text : jsstring)
| ConsoleErrorCall (message error : jsstring).

(** How a block of statements ends: normally or by an exception. *)
Inductive outcome (A : Type) : Type :=
| Done (a : A)
| Raised (error : jsstring).
Arguments Done {A} a.
Arguments Raised {A} error.

(** A block of statements: the calls it made, in order, and how it ended. *)
Definition Run (A : Type) : Type := (list Call * outcome A)%type.

Definition ret (A : Type) (a : A) : Run A := ([], Done a).

Definition bind (A B : Type) (m : Run A) (k : A -> Run B) : Run B :=
  match m with
  | (calls, Done a) => let (calls', o) := k a in (calls ++ calls', o)
  | (calls, Raised e) => (calls, Raised e)
  end.

Notation "x <- m ;; k" := (bind m (fun x => k))
  (at level 61, m at next level, right associativity).
Notation "m ;;; k" := (bind m (fun _ => k))
  (at level 61, right associativity).

Definition call (c : Call) : Run unit := ([c], Done tt).

Definition lift (A : Type) (c : completion A) : Run A :=
  match c with
  | Returned a => ret a
  | Thrown e => ([], Raised e)
  end.

(** [try { body } catch (error) { handler(error) }]. *)
Definition tryCatch (body : Run unit) (handler : jsstring -> Run unit)
    : Run unit :=
  match body with
  | (calls, Raised e) => let (calls', o) := handler e in (calls ++ calls', o)
  | _ => body
  end.

(** [try { body } finally { final }]: [final] runs however [body] ended, and
    [body]'s exception goes on after it. *)
Definition tryFinally (body final : Run unit) : Run unit :=
  match body with
  | (calls, Done _) => let (calls', o) := final in (calls ++ calls', o)
  | (calls, Raised e) =>
      let (calls', o) := final in
      (calls ++ calls', match o with Done _ => Raised e | _ => o end)
  end.

(** [localStorage.setItem(key, text)]: the call, and its exception if the
    store refuses it. *)
Definition storageSetItem (w : World) (key text : jsstring) : Run unit :=
  call (SetItemCall key text) ;;; lift (setItem w key text).

(** [setNotes(v)] and [setTags(v)] for a parsed value [v]: a call of the
    setter with the collection [v] is, or with [v] itself when it is of
    another shape. *)
Definition setNotesParsed (v : value) : Call :=
  match asNotes v with
  | Some l => SetStateCall (SetNotes (fun _ => l))
  | None => SetForeignCall NotesCell v
  end.

Definition setTagsParsed (v : value) : Call :=
  match asTags v with
  | Some l => SetStateCall (SetTags (fun _ => l))
  | None => SetForeignCall TagsCell v
  end.

(** The first effect: load both collections. *)
Definition loadEffect (w : World) : Run unit :=
  tryFinally
    (tryCatch
       (storedNotes <- lift (getItem w (js "notes_data")) ;;
        storedTags <- lift (getItem w (js "tags_data")) ;;
        match storedNotes with
        | Some text =>
            if truthy text then
              v <- lift (JSON.parse text) ;;
              call (setNotesParsed v)
            else ret tt
        | None => ret tt
        end ;;;
        match storedTags with
        | Some text =>
            if truthy text then
              v <- lift (JSON.parse text) ;;
              call (setTagsParsed v)
            else ret tt
        | None => ret tt
        end)
       (fun error =>
          call (ConsoleErrorCall (js "Failed to load data from localStorage")
                                 error)))
    (call (SetStateCall (SetIsInitialized true))).

(** The second effect: save the notes, in the closure of the render
    [render]. *)
Definition saveNotesEffect (w : World) (render : AppState) : Run unit :=
  if isInitialized render then
    tryCatch
      (storageSetItem w (js "notes_data") (JSON_stringify_notes (notes render)))
      (fun error =>
         call (ConsoleErrorCall (js "Failed to save notes to localStorage")
                                error))
  else ret tt.

(** The third effect: save the tags. *)
Definition saveTagsEffect (w : World) (render : AppState) : Run unit :=
  if isInitialized render then
    tryCatch
      (storageSetItem w (js "tags_data") (JSON_stringify_tags (tags render)))
      (fun error =>
         call (ConsoleErrorCall (js "Failed to save tags to localStorage")
                                error))
  else ret tt.

(* ================================================================== *)
(** * The component under React *)
(* ================================================================== *)

(** React applies the setter calls among [calls] to the state.  A call with
    a value of another shape leads to no [AppState]: [commit] is for calls
    without one (see [mount]). *)
Definition commit (calls : list Call) (s : AppState) : AppState :=
  fold_left (fun st c => match c with
                         | SetStateCall a => applyAction st a
                         | _ => st
                         end) calls s.

(** A setter call with a value of another shape than the cell's. *)
Definition setsForeign (c : Call) : bool :=
  match c with
  | SetForeignCall _ _ => true
  | _ => false
  end.

(** Every array given to [setNotes] or [setTags] is newly built (by a spread,
    [map], [filter] or [JSON.parse]), so a call of the setter is a change of
    the cell for the dependency comparison of [useEffect]. *)
Definition setsNotes (c : Call) : bool :=
  match c with
  | SetStateCall (SetNotes _) => true
  | _ => false
  end.

Definition setsTags (c : Call) : bool :=
  match c with
  | SetStateCall (SetTags _) => true
  | _ => false
  end.

(** The effects React runs after the render of [cur] that follows the render
    of [prev]: those with a dependency that changed.  [calls] are the setter
    calls that led from [prev] to [cur]. *)
Definition effectsAfter (w : World) (calls : list Call) (prev cur : AppState)
    : Run unit :=
  (if existsb setsNotes calls || xorb (isInitialized prev) (isInitialized cur)
   then saveNotesEffect w cur else ret tt) ;;;
  (if existsb setsTags calls || xorb (isInitialized prev) (isInitialized cur)
   then saveTagsEffect w cur else ret tt).

(** What can be observed of a run: the renders and the calls. *)
Inductive Obs : Type :=
| Rendered (s : AppState)
| Called (c : Call).

(** Mounting: the first render, with the initial state; the three effects in
    the order of their declaration, all in the closure of that render; the
    render of the state they set; and the effects whose dependencies changed.
    [None] when a stored text is JSON of another shape than the cell it is
    loaded into: what the cells then hold is no [AppState] (see
    [filterOnForeign] for the render that follows). *)
Definition mount (w : World) : option (AppState * list Obs) :=
  match loadEffect w ;;; saveNotesEffect w initialState ;;;
        saveTagsEffect w initialState with
  | (calls1, Done _) =>
      if existsb setsForeign calls1 then None
      else
        let s1 := commit calls1 initialState in
        let (calls2, _) := effectsAfter w calls1 initialState s1 in
        Some (commit calls2 s1,
              Rendered initialState :: List.map Called calls1
              ++ Rendered s1 :: List.map Called calls2)
  | (_, _) => None
  end.

(** [notes.filter(...)] of l.88, the first use of the notes in a render,
    when the cell holds the value [v] of another shape than a notes
    collection.  Only an array has the method [filter]: on [null], which has
    no properties, and on a boolean, a number, a string or an object, which
    have no method [filter], the call throws a [TypeError], [Some] of it.
    [None] on an array: the callback then runs on elements that are not all
    notes, and what the render does depends on them and on the children. *)
Definition filterOnForeign (v : value) : option jsstring :=
  match v with
  | JArray _ => None
  | _ => Some (js "TypeError")
  end.

(** One event: the handler's setter calls, the render of the state they
    lead to, and the effects whose dependencies changed. *)
Definition react (w : World) (e : Event) (s : AppState)
    : AppState * list Obs :=
  let calls1 := List.map SetStateCall (handle s e) in
  let s1 := commit calls1 s in
  let (calls2, _) := effectsAfter w calls1 s s1 in
  (commit calls2 s1,
   List.map Called calls1 ++ Rendered s1 :: List.map Called calls2).

(** A run of the application: mounting, then events, each with the answers
    of the store at that time. *)
Fixpoint reactAll (inputs : list (World * Event)) (s : AppState)
    : AppState * list Obs :=
  match inputs with
  | [] => (s, [])
  | (w, e) :: rest =>
      let (s1, t1) := react w e s in
      let (s2, t2) := reactAll rest s1 in
      (s2, t1 ++ t2)
  end.

Definition runApp (w0 : World) (inputs : list (World * Event))
    : option (AppState * list Obs) :=
  match mount w0 with
  | Some (s, t) => let (s', t') := reactAll inputs s in Some (s', t ++ t')
  | None => None
  end.

(* ================================================================== *)
(** * What the component renders *)
(* ================================================================== *)

(** The data each child receives; the callbacks it receives are the
    [Event]s. *)
Module Sidebar.
Record props : Type := mk {
  tags : list Tag;
  activeTagId : option jsstring;
  isOpen : bool
}.
End Sidebar.

Module NoteList.
Record props : Type := mk {
  notes : list Note;
  tags : list Tag;
  searchTerm : jsstring
}.
End NoteList.

Module NoteEditor.
Record props : Type := mk {
  note : Note;
  tags : list Tag
}.
End NoteEditor.

Module AskGeminiModal.
Record props : Type := mk {
  isOpen : bool;
  notes : list Note
}.
End AskGeminiModal.

(** The content of [<main>]: the list (with the menu button and the [FAB])
    or the editor. *)
Inductive Main : Type :=
| ListView (list : NoteList.props)
| EditorView (editor : NoteEditor.props).

(** What [App] returns: the loading text, or the sidebar, the main content
    and the modal. *)
Inductive Screen : Type :=
| Loading
| Shown (sidebar : Sidebar.props) (main : Main) (modal : AskGeminiModal.props).

Section Render.
Variable toLowerCase : jsstring -> jsstring.
Variable Date_getTime : jsstring -> number.

(** The value [App] returns for the state [s]. *)
Definition render (s : AppState) : Screen :=
  if negb (isInitialized s) then Loading
  else
    Shown
      (Sidebar.mk (tags s) (activeTagId s) (isSidebarOpen s))
      (match activeNote s with
       | None =>
           ListView (NoteList.mk
                       (filteredNotes toLowerCase Date_getTime (notes s)
                                      (activeTagId s) (searchTerm s))
                       (tags s) (searchTerm s))
       | Some n => EditorView (NoteEditor.mk n (tags s))
       end)
      (AskGeminiModal.mk (isAskGeminiModalOpen s) (notes s)).

End Render.

(** The notes a screen hands to the children. *)
Definition notesHandedDown (r : Screen) : list Note :=
  match r with
  | Loading => []
  | Shown _ main modal =>
      match main with
      | ListView l => NoteList.notes l
      | EditorView e => [NoteEditor.note e]
      end ++ AskGeminiModal.notes modal
  end.

(* ================================================================== *)
(** * Vocabulary of the statements *)
(* ================================================================== *)

(** [Selects P l sel]: [sel] is [l] with exactly the elements that satisfy
    [P] kept, each as often as it occurs and in the order of [l]. *)
Inductive Selects (A : Type) (P : A -> Prop) : list A -> list A -> Prop :=
| Selects_nil : Selects P [] []
| Selects_keep x l sel : P x -> Selects P l sel -> Selects P (x :: l) (x :: sel)
| Selects_drop x l sel : ~ P x -> Selects P l sel -> Selects P (x :: l) sel.

(** [p] occurs in [s] as a contiguous run of code units. *)
Definition isSubstring (p s : jsstring) : Prop :=
  exists pre post, s = pre ++ p ++ post.

Section SortVocabulary.
Variable A : Type.
Variable comparefn : A -> A -> number.
Variable key : A -> Z.

(** On the elements of [l] the comparator is the difference of the keys, the
    later argument's first: a descending sort by [key]. *)
Definition descendingOn (l : list A) : Prop :=
  forall x y, In x l -> In y l -> SortCompare comparefn x y = (key y - key x)%Z.

Definition keyIs (k : Z) (x : A) : bool := (key x =? k)%Z.

End SortVocabulary.

Section ViewVocabulary.
Variable toLowerCase : jsstring -> jsstring.
Variable Date_getTime : jsstring -> number.

(** The tag filter lets a note through: no filter is set, or the filter is
    the empty string (which the code reads as "no filter"), or the note
    carries the tag. *)
Definition tagMatches (activeTagId : option jsstring) (n : Note) : Prop :=
  match activeTagId with
  | None => True
  | Some t => t = [] \/ In t (Note.tags n)
  end.

(** The tag condition in the words of the specification: the filter is unset
    or the note carries it. *)
Definition tagMatchesAsStated (activeTagId : option jsstring) (n : Note) : Prop :=
  match activeTagId with
  | None => True
  | Some t => In t (Note.tags n)
  end.

(** The search term is empty or occurs, letter case apart, in the title or in
    the content. *)
Definition searchMatches (searchTerm : jsstring) (n : Note) : Prop :=
  searchTerm = [] \/
  isSubstring (toLowerCase searchTerm) (toLowerCase (Note.title n)) \/
  isSubstring (toLowerCase searchTerm) (toLowerCase (Note.content n)).

(** The time a note was last updated, as the comparator reads it. *)
Definition updatedTime (n : Note) : number := Date_getTime (Note.updatedAt n).

(** [a] was updated at [b]'s time or later. *)
Definition notOlder (a b : Note) : Prop :=
  exists ta tb, updatedTime a = Some ta /\ updatedTime b = Some tb /\ (tb <= ta)%Z.

(** Was [n] last updated at time [t]? *)
Definition updatedAtTime (t : Z) (n : Note) : bool :=
  match updatedTime n with
  | Some t' => (t' =? t)%Z
  | None => false
  end.

(** The key the comparator sorts by, on notes whose timestamp is a date. *)
Definition timeKey (n : Note) : Z :=
  match updatedTime n with
  | Some t => t
  | None => 0%Z
  end.

End ViewVocabulary.

(** ** Parsing *)

(** [text] is read as [v] by [pv], whatever follows it. *)
Definition parsesTo (pv : jsstring -> JSON.presult JSON.value) (text : jsstring)
    (v : JSON.value) : Prop :=
  forall rest, pv (text ++ rest) = JSON.POk v rest.

(** [text] starts with a character that is neither white space nor a
    closing bracket or brace. *)
Definition startsValue (text : jsstring) : Prop :=
  exists c t, text = c :: t /\ JSON.isWs c = false /\ c <> 93%N /\ c <> 125%N.

(** ** Loading *)

(** What the load effect makes of the stored notes text when reading it does
    not fail: nothing when no text or an empty text is stored, else the
    collection the text parses to. *)
Inductive LoadsNotes : option jsstring -> list Note -> Prop :=
| LoadsNotes_none : LoadsNotes None []
| LoadsNotes_empty : LoadsNotes (Some []) []
| LoadsNotes_parsed text v l :
    truthy text = true -> JSON.parse text = Returned v -> asNotes v = Some l ->
    LoadsNotes (Some text) l.

(** [LoadFails w l error]: with the store answering as [w], reading or
    deserializing a stored collection fails with [error]; [l] is what the
    load effect had put in the notes cell by then. *)
Inductive LoadFails (w : World) : list Note -> jsstring -> Prop :=
| NotesReadThrows error :
    getItem w (js "notes_data") = Thrown error ->
    LoadFails w [] error
| TagsReadThrows storedNotes error :
    getItem w (js "notes_data") = Returned storedNotes ->
    getItem w (js "tags_data") = Thrown error ->
    LoadFails w [] error
| NotesParseThrows text storedTags error :
    getItem w (js "notes_data") = Returned (Some text) ->
    getItem w (js "tags_data") = Returned storedTags ->
    truthy text = true -> JSON.parse text = Thrown error ->
    LoadFails w [] error
| TagsParseThrows storedNotes l text error :
    getItem w (js "notes_data") = Returned storedNotes ->
    LoadsNotes storedNotes l ->
    getItem w (js "tags_data") = Returned (Some text) ->
    truthy text = true -> JSON.parse text = Thrown error ->
    LoadFails w l error.

(** The calls of a save effect that runs: the write and, when the store
    refuses it, the log of the refusal. *)
Definition writeCalls (w : World) (key text message : jsstring) : list Call :=
  SetItemCall key text ::
  match setItem w key text with
  | Returned _ => []
  | Thrown error => [ConsoleErrorCall message error]
  end.

Definition notesWrite (w : World) (s : AppState) : list Call :=
  writeCalls w (js "notes_data") (JSON_stringify_notes (notes s))
             (js "Failed to save notes to localStorage").

Definition tagsWrite (w : World) (s : AppState) : list Call :=
  writeCalls w (js "tags_data") (JSON_stringify_tags (tags s))
             (js "Failed to save tags to localStorage").

(** ** Traces *)

(** A call of [localStorage.setItem]. *)
Definition isWrite (o : Obs) : bool :=
  match o with
  | Called (SetItemCall _ _) => true
  | _ => false
  end.

(** The call that marks initialization complete. *)
Definition marksInitialized : Obs :=
  Called (SetStateCall (SetIsInitialized true)).

(** The writes of a trace, in order: key and text. *)
Definition writesOf (t : list Obs) : list (jsstring * jsstring) :=
  flat_map (fun o => match o with
                     | Called (SetItemCall key text) => [(key, text)]
                     | _ => []
                     end) t.

(** The text of the last write under [key] in a trace. *)
Fixpoint lastWrite (key : jsstring) (t : list Obs) : option jsstring :=
  match t with
  | [] => None
  | o :: t' =>
      match lastWrite key t' with
      | Some text => Some text
      | None =>
          match o with
          | Called (SetItemCall k text) =>
              if strictEq k key then Some text else None
          | _ => None
          end
      end
  end.

(** The state of the last render of a trace: the effects that run next run
    in the closure of that render. *)
Fixpoint lastRender (t : list Obs) : option AppState :=
  match t with
  | [] => None
  | o :: t' =>
      match lastRender t' with
      | Some s => Some s
      | None =>
          match o with
          | Rendered s => Some s
          | _ => None
          end
      end
  end.

(** [text] under [key] is a whole collection of [s], serialized, under the
    key of that collection. *)
Definition writesCollection (s : AppState) (key text : jsstring) : Prop :=
  (key = js "notes_data" /\ text = JSON_stringify_notes (notes s)) \/
  (key = js "tags_data" /\ text = JSON_stringify_tags (tags s)).

(** Every write of the trace [t], which follows the trace [t0], comes after
    a render, the last render before it is one of an initialized state, and
    the write carries a whole collection of that render. *)
Definition gatedAfter (t0 t : list Obs) : Prop :=
  forall pre key text post,
    t = pre ++ Called (SetItemCall key text) :: post ->
    exists r,
      lastRender (t0 ++ pre) = Some r /\
      isInitialized r = true /\
      writesCollection r key text.

(** The load effect logged a failure. *)
Definition isLoadError (o : Obs) : bool :=
  match o with
  | Called (ConsoleErrorCall message _) =>
      strictEq message (js "Failed to load data from localStorage")
  | _ => false
  end.

(** ** Identifiers of tags *)

Definition isAddTag (e : Event) : bool :=
  match e with
  | AddTag _ _ => true
  | _ => false
  end.

(** The identifiers of the tags, in order. *)
Definition tagIds (s : AppState) : list jsstring :=
  List.map Tag.id (tags s).


(** Every tag identifier the state refers to (in a note, or as a non-empty
    active tag filter) is the identifier of a tag. *)
Definition refsValid (s : AppState) : Prop :=
  (forall n t, In n (notes s) -> In t (Note.tags n) -> In t (tagIds s)) /\
  (forall c t, activeTagId s = Some (c :: t) -> In (c :: t) (tagIds s)).

(** An event whose tag identifiers, handed in by a child, are identifiers of
    tags of [s]. *)
Definition passesKnownTags (s : AppState) (e : Event) : Prop :=
  match e with
  | SaveNote updatedNote =>
      forall t, In t (Note.tags updatedNote) -> In t (tagIds s)
  | SelectTag (Some (c :: t)) => In (c :: t) (tagIds s)
  | _ => True
  end.

Fixpoint allPassKnownTags (s : AppState) (events : list Event) : Prop :=
  match events with
  | [] => True
  | e :: rest => passesKnownTags s e /\ allPassKnownTags (dispatch e s) rest
  end.

(* ================================================================== *)
(** * Sample data *)
(* ================================================================== *)

Module Sample.

Definition meeting : Note :=
  Note.mk (js "n1") (js "Meeting notes") (js "agenda") [js "t1"]
          (js "2024-03-01T09:00:00.000Z") (js "2024-03-01T09:00:00.000Z").

Definition groceries : Note :=
  Note.mk (js "n2") (js "Groceries") (js "milk, eggs") []
          (js "2024-03-02T08:00:00.000Z") (js "2024-03-05T18:30:00.000Z").

Definition ideas : Note :=
  Note.mk (js "n3") (js "Ideas") (js "topics for the next MEETING")
          [js "t1"; js "t2"]
          (js "2024-03-03T10:00:00.000Z") (js "2024-03-03T10:00:00.000Z").

Definition travel : Note :=
  Note.mk (js "n4") (js "Travel") (js "") [js "t2"]
          (js "2024-03-04T07:00:00.000Z") (js "2024-03-05T18:30:00.000Z").

Definition draft : Note :=
  Note.mk (js "n5") (js "Draft") (js "") []
          (js "2024-02-01T12:00:00.000Z") (js "2024-02-01T12:00:00.000Z").

Definition fiveNotes : list Note := [meeting; groceries; ideas; travel; draft].

Definition work : Tag := Tag.mk (js "t1") (js "work").

(** An initialized state that shows all five notes. *)
Definition loaded : AppState :=
  mkState fiveNotes [work] None None [] false true false.

(** The same state with the empty string as the active tag filter. *)
Definition emptyFilter : AppState :=
  mkState fiveNotes [work] None (Some []) [] false true false.

(** A store that holds one note and a tags text that is not JSON. *)
Definition tagsTextBroken : World :=
  mkWorld (fun key => if strictEq key (js "notes_data")
                      then Returned (Some (JSON_stringify_notes [meeting]))
                      else Returned (Some (js "{oops")))
          (fun _ _ => Returned tt).

(** A store that holds a notes text that is not JSON. *)
Definition notesTextBroken : World :=
  mkWorld (fun key => if strictEq key (js "notes_data")
                      then Returned (Some (js "[{"))
                      else Returned (Some (JSON_stringify_tags [work])))
          (fun _ _ => Returned tt).

(** A store whose notes text is valid JSON but no array, and whose tags
    text is not JSON. *)
Definition notesTextNull : World :=
  mkWorld (fun key => if strictEq key (js "notes_data")
                      then Returned (Some (js "null"))
                      else Returned (Some (js "{oops")))
          (fun _ _ => Returned tt).

(** A store that refuses every access. *)
Definition denied : World :=
  mkWorld (fun _ => Thrown (js "SecurityError"))
          (fun _ _ => Thrown (js "QuotaExceededError")).

End Sample.

(* ================================================================== *)
(** * Facts about the JavaScript primitives *)
(* ================================================================== *)

Lemma strictEq_true_iff (a b : jsstring) : strictEq a b = true <-> a = b.
Proof.
  revert b; induction a as [|x a IH]; intros [|y b]; simpl;
    try (split; [discriminate | congruence]); try tauto.
  rewrite andb_true_iff, N.eqb_eq, IH. split.
  - intros [-> ->]; reflexivity.
  - intros E; injection E; auto.
Qed.

Lemma startsWith_true_iff (p s : jsstring) :
  startsWith p s = true <-> exists post, s = p ++ post.
Proof.
  revert s; induction p as [|c p IH]; intros s; simpl.
  - split; [intros _; exists s; reflexivity | reflexivity].
  - destruct s as [|d s].
    + split; [discriminate | intros [post E]; discriminate].
    + rewrite andb_true_iff, N.eqb_eq, IH. split.
      * intros [-> [post ->]]. exists post; reflexivity.
      * intros [post E]. injection E as -> ->. split; [reflexivity | eauto].
Qed.

Lemma String_includes_true_iff (s p : jsstring) :
  String_includes s p = true <-> isSubstring p s.
Proof.
  unfold isSubstring. induction s as [|d s IH]; simpl.
  - rewrite orb_false_r, startsWith_true_iff. split.
    + intros [post E]. exists [], post. exact E.
    + intros [pre [post E]]. destruct pre; [|discriminate]. eauto.
  - rewrite orb_true_iff, IH, startsWith_true_iff. split.
    + intros [[post E] | [pre [post E]]].
      * exists [], post. exact E.
      * exists (d :: pre), post. simpl. rewrite E. reflexivity.
    + intros [[|c pre] [post E]].
      * left. exists post. exact E.
      * right. injection E as -> E. eauto.
Qed.

Lemma Array_includes_true_iff (arr : list jsstring) (x : jsstring) :
  Array_includes arr x = true <-> In x arr.
Proof.
  unfold Array_includes. rewrite existsb_exists. split.
  - intros [y [Hy E]]. apply strictEq_true_iff in E. subst; assumption.
  - intros H. exists x. split; [assumption | apply strictEq_true_iff; reflexivity].
Qed.

(** ** The sort *)

Section SortFacts.
Variable A : Type.
Variable comparefn : A -> A -> number.
Variable key : A -> Z.

Local Abbreviation descending := (descendingOn comparefn key).
Local Abbreviation hasKey := (keyIs key).

Lemma sortInsert_perm (x : A) (l : list A) :
  Permutation (sortInsert comparefn x l) (x :: l).
Proof.
  induction l as [|y l IH]; simpl; [reflexivity|].
  destruct (SortCompare comparefn x y <=? 0)%Z; [reflexivity|].
  rewrite IH. apply perm_swap.
Qed.

Lemma Array_sort_perm (l : list A) : Permutation (Array_sort comparefn l) l.
Proof.
  induction l as [|x l IH]; simpl; [reflexivity|].
  rewrite sortInsert_perm. constructor. exact IH.
Qed.

Lemma Array_sort_In (l : list A) (x : A) :
  In x (Array_sort comparefn l) <-> In x l.
Proof.
  split; apply Permutation_in;
    [apply Array_sort_perm | symmetry; apply Array_sort_perm].
Qed.

Lemma sortInsert_sorted (x : A) (l : list A) :
  (forall y, In y l -> SortCompare comparefn x y = (key y - key x)%Z) ->
  StronglySorted (fun a b => (key b <= key a)%Z) l ->
  StronglySorted (fun a b => (key b <= key a)%Z) (sortInsert comparefn x l).
Proof.
  intros Hx Hs. induction Hs as [|y l Hs IH Hy]; simpl.
  - repeat constructor.
  - destruct (Z.leb_spec (SortCompare comparefn x y) 0) as [Hle|Hgt];
      rewrite (Hx y (or_introl eq_refl)) in *.
    + constructor; [constructor; assumption|].
      constructor; [lia|].
      eapply Forall_impl; [|exact Hy]. simpl; intros; lia.
    + constructor.
      * apply IH. intros z Hz. apply Hx. right; assumption.
      * eapply Permutation_Forall; [symmetry; apply sortInsert_perm|].
        constructor; [lia | assumption].
Qed.

Lemma Array_sort_sorted (l : list A) :
  descending l ->
  StronglySorted (fun a b => (key b <= key a)%Z) (Array_sort comparefn l).
Proof.
  induction l as [|x l IH]; intros Hd; simpl; [constructor|].
  apply sortInsert_sorted.
  - intros y Hy. apply Hd; [left; reflexivity | right].
    apply Array_sort_In; assumption.
  - apply IH. intros a b Ha Hb. apply Hd; right; assumption.
Qed.

Lemma sortInsert_stable (k : Z) (x : A) (l : list A) :
  (forall y, In y l -> SortCompare comparefn x y = (key y - key x)%Z) ->
  filter (hasKey k) (sortInsert comparefn x l) = filter (hasKey k) (x :: l).
Proof.
  intros Hx. induction l as [|y l IH]; [reflexivity|].
  cbn [sortInsert].
  destruct (Z.leb_spec (SortCompare comparefn x y) 0) as [Hle|Hgt];
    [reflexivity|].
  rewrite (Hx y (or_introl eq_refl)) in Hgt.
  cbn [filter]. rewrite IH by (intros z Hz; apply Hx; right; assumption).
  cbn [filter]. unfold keyIs.
  destruct (Z.eqb_spec (key x) k), (Z.eqb_spec (key y) k);
    try reflexivity; lia.
Qed.

Lemma Array_sort_stable (k : Z) (l : list A) :
  descending l ->
  filter (hasKey k) (Array_sort comparefn l) = filter (hasKey k) l.
Proof.
  induction l as [|x l IH]; intros Hd; [reflexivity|].
  cbn [Array_sort]. rewrite sortInsert_stable.
  - cbn [filter]. rewrite IH; [reflexivity|].
    intros a b Ha Hb. apply Hd; right; assumption.
  - intros y Hy. apply Hd; [left; reflexivity | right].
    apply Array_sort_In; assumption.
Qed.

Lemma keyIs_refl (x : A) : hasKey (key x) x = true.
Proof. apply Z.eqb_refl. Qed.

Lemma keyIs_head_In (x : A) (l l' : list A) :
  filter (hasKey (key x)) (x :: l) = filter (hasKey (key x)) l' -> In x l'.
Proof.
  cbn [filter]. rewrite keyIs_refl. intros E.
  apply (proj1 (filter_In (hasKey (key x)) x l')).
  rewrite <- E. left; reflexivity.
Qed.

(** Two lists in descending key order that agree, for every key, on the
    elements of that key in order, are the same list. *)
Lemma descending_stable_unique (l1 l2 : list A) :
  StronglySorted (fun a b => (key b <= key a)%Z) l1 ->
  StronglySorted (fun a b => (key b <= key a)%Z) l2 ->
  (forall k, filter (hasKey k) l1 = filter (hasKey k) l2) ->
  l1 = l2.
Proof.
  intros H1; revert l2.
  induction H1 as [|x l1 Hs1 IH Hx]; intros l2 H2 Hf.
  - destruct l2 as [|y l2]; [reflexivity|].
    exfalso. apply (keyIs_head_In y l2 []). symmetry; apply Hf.
  - destruct H2 as [|y l2 Hs2 Hy].
    + exfalso. apply (keyIs_head_In x l1 []). apply Hf.
    + assert (Hxin : In x (y :: l2)) by (eapply keyIs_head_In; apply Hf).
      assert (Hyin : In y (x :: l1))
        by (eapply keyIs_head_In; symmetry; apply Hf).
      assert (Hxy : key x = key y).
      { rewrite Forall_forall in Hx, Hy.
        destruct Hxin as [->|Hxin]; [reflexivity|].
        destruct Hyin as [->|Hyin]; [reflexivity|].
        specialize (Hx _ Hyin). specialize (Hy _ Hxin). lia. }
      assert (Exy : x = y).
      { specialize (Hf (key x)). cbn [filter] in Hf.
        rewrite keyIs_refl in Hf. rewrite Hxy in Hf at 2.
        rewrite keyIs_refl in Hf. congruence. }
      subst y. f_equal. apply IH; [assumption|].
      intros k. specialize (Hf k). cbn [filter] in Hf.
      destruct (hasKey k x); congruence.
Qed.

(** Every stable sort gives the list [Array_sort] gives: a list in descending
    key order that keeps, for every key, the elements of that key in the
    order of the input. *)
Lemma Array_sort_unique (l l' : list A) :
  descending l ->
  StronglySorted (fun a b => (key b <= key a)%Z) l' ->
  (forall k, filter (hasKey k) l' = filter (hasKey k) l) ->
  l' = Array_sort comparefn l.
Proof.
  intros Hd Hs Hf. apply descending_stable_unique; [assumption| |].
  - apply Array_sort_sorted; assumption.
  - intros k. rewrite Array_sort_stable by assumption. apply Hf.
Qed.

End SortFacts.

(** [filter] keeps exactly the elements its predicate accepts. *)
Lemma filter_Selects (A : Type) (f : A -> bool) (P : A -> Prop) (l : list A) :
  (forall x, f x = true <-> P x) -> Selects P l (filter f l).
Proof.
  intros Hf. induction l as [|x l IH]; simpl; [constructor|].
  destruct (f x) eqn:E.
  - apply Selects_keep; [apply Hf; assumption | assumption].
  - apply Selects_drop; [|assumption].
    intros HP. apply Hf in HP. congruence.
Qed.

Lemma Selects_In (A : Type) (P : A -> Prop) (l sel : list A) (x : A) :
  Selects P l sel -> (In x sel <-> In x l /\ P x).
Proof.
  induction 1 as [|y l sel Hy _ IH|y l sel Hy _ IH]; simpl.
  - tauto.
  - rewrite IH. split.
    + intros [->|[? ?]]; auto.
    + intros [[->|?] ?]; auto.
  - rewrite IH. split.
    + intros [? ?]; auto.
    + intros [[->|?] ?]; [contradiction | auto].
Qed.

(** [Selects] determines its result. *)
Lemma Selects_unique (A : Type) (P : A -> Prop) (l s1 s2 : list A) :
  Selects P l s1 -> Selects P l s2 -> s1 = s2.
Proof.
  intros H1; revert s2.
  induction H1 as [|x l s1 Hx _ IH|x l s1 Hx _ IH]; intros s2 H2;
    inversion H2; subst; try contradiction; try reflexivity.
  - f_equal; apply IH; assumption.
  - apply IH; assumption.
Qed.

(* ================================================================== *)
(** * The filtered and sorted view *)
(* ================================================================== *)

Section ViewFacts.
Variable toLowerCase : jsstring -> jsstring.
Variable Date_getTime : jsstring -> number.

Local Abbreviation keep := (keepNote toLowerCase).
Local Abbreviation view := (filteredNotes toLowerCase Date_getTime).
Local Abbreviation time := (updatedTime Date_getTime).

(** The filter callback accepts the notes that pass the tag filter and the
    search. *)
Lemma keepNote_true_iff (activeTagId : option jsstring) (searchTerm : jsstring)
    (n : Note) :
  keep activeTagId searchTerm n = true <->
  tagMatches activeTagId n /\ searchMatches toLowerCase searchTerm n.
Proof using toLowerCase.
  unfold keepNote, tagMatches, searchMatches.
  rewrite <- !String_includes_true_iff.
  assert (Hsearch :
    (if truthy searchTerm
        && negb (String_includes (toLowerCase (Note.title n))
                                 (toLowerCase searchTerm))
        && negb (String_includes (toLowerCase (Note.content n))
                                 (toLowerCase searchTerm))
     then false else true) = true <->
    searchTerm = [] \/
    String_includes (toLowerCase (Note.title n)) (toLowerCase searchTerm) = true \/
    String_includes (toLowerCase (Note.content n)) (toLowerCase searchTerm) = true).
  { destruct searchTerm as [|d u]; cbn [truthy andb].
    - split; [left; reflexivity | reflexivity].
    - destruct (String_includes (toLowerCase (Note.title n)) _),
               (String_includes (toLowerCase (Note.content n)) _);
        cbn [negb andb]; split; try reflexivity; try discriminate; auto;
        intros [H|[H|H]]; discriminate H. }
  destruct activeTagId as [[|c t]|]; cbn [truthyNullable truthy andb negb].
  - rewrite Hsearch. split; [intros H; split; [left; reflexivity | exact H]
                            | intros [_ H]; exact H].
  - rewrite <- Array_includes_true_iff.
    destruct (Array_includes (Note.tags n) (c :: t)); cbn [negb].
    + rewrite Hsearch. split; [intros H; split; [right; reflexivity | exact H]
                              | intros [_ H]; exact H].
    + split; [discriminate | intros [[H|H] _]; discriminate H].
  - rewrite Hsearch. split; [intros H; split; [exact I | exact H]
                            | intros [_ H]; exact H].
Qed.

Local Abbreviation tkey := (timeKey Date_getTime).

Lemma byUpdatedAtDesc_descending (l : list Note) :
  (forall n, In n l -> time n <> None) ->
  descendingOn (byUpdatedAtDesc Date_getTime) tkey l.
Proof.
  intros Hv x y Hx Hy. apply Hv in Hx, Hy.
  unfold SortCompare, byUpdatedAtDesc, timeKey, updatedTime in *.
  destruct (Date_getTime (Note.updatedAt x)), (Date_getTime (Note.updatedAt y));
    try congruence. reflexivity.
Qed.

Lemma updatedAtTime_keyIs (l : list Note) (t : Z) :
  (forall n, In n l -> time n <> None) ->
  filter (updatedAtTime Date_getTime t) l = filter (keyIs tkey t) l.
Proof.
  intros Hv. apply filter_ext_in. intros n Hn. apply Hv in Hn.
  unfold updatedAtTime, keyIs, timeKey. destruct (time n); congruence.
Qed.

(** C1 (as amended): for every notes collection whose [updatedAt] fields are
    all dates, every active tag filter and every search term, the view is a
    rearrangement of the visible notes, where a note is visible when (the tag
    filter is unset, or is the empty string, or the note's tag list contains
    it) and (the search term is empty or occurs, letter case apart, in the
    title or the content); the view is in descending order of [updatedAt];
    and the notes of any one [updatedAt] time stand in the view in the order
    they have in the collection. *)
Theorem filteredNotes_spec (notes : list Note) (activeTagId : option jsstring)
    (searchTerm : jsstring) :
  (forall n, In n notes -> time n <> None) ->
  exists visibleNotes,
    Selects (fun n => tagMatches activeTagId n /\
                      searchMatches toLowerCase searchTerm n)
            notes visibleNotes /\
    Permutation (view notes activeTagId searchTerm) visibleNotes /\
    StronglySorted (notOlder Date_getTime) (view notes activeTagId searchTerm) /\
    forall t, filter (updatedAtTime Date_getTime t)
                     (view notes activeTagId searchTerm)
              = filter (updatedAtTime Date_getTime t) visibleNotes.
Proof.
  intros Hv. exists (filter (keep activeTagId searchTerm) notes).
  assert (Hv' : forall n, In n (filter (keep activeTagId searchTerm) notes) ->
                          time n <> None).
  { intros n Hn. apply filter_In in Hn. apply Hv, Hn. }
  assert (Hd := byUpdatedAtDesc_descending _ Hv').
  unfold filteredNotes. repeat split.
  - apply filter_Selects. intros n. apply keepNote_true_iff.
  - apply Array_sort_perm.
  - assert (Hs := Array_sort_sorted Hd).
    assert (Hin : forall n, In n (Array_sort (byUpdatedAtDesc Date_getTime)
                     (filter (keep activeTagId searchTerm) notes)) ->
                  time n <> None).
    { intros n Hn. apply Array_sort_In in Hn. auto. }
    revert Hs Hin. generalize (Array_sort (byUpdatedAtDesc Date_getTime)
                     (filter (keep activeTagId searchTerm) notes)).
    intros l Hs. induction Hs as [|x l Hs IH Hx]; intros Hin; constructor.
    + apply IH. intros n Hn. apply Hin. right; assumption.
    + rewrite Forall_forall in *. intros y Hy.
      assert (Tx := Hin x (or_introl eq_refl)).
      assert (Ty := Hin y (or_intror Hy)).
      specialize (Hx y Hy). unfold notOlder, timeKey in *.
      destruct (time x) as [tx|], (time y) as [ty|]; try congruence.
      exists tx, ty. auto.
  - intros t. rewrite !updatedAtTime_keyIs.
    + apply Array_sort_stable; assumption.
    + assumption.
    + intros n Hn. apply Array_sort_In in Hn. auto.
Qed.

(** The view holds exactly the visible notes of the collection. *)
Lemma filteredNotes_In (notes : list Note) (activeTagId : option jsstring)
    (searchTerm : jsstring) (n : Note) :
  In n (view notes activeTagId searchTerm) <->
  In n notes /\ tagMatches activeTagId n /\
  searchMatches toLowerCase searchTerm n.
Proof.
  unfold filteredNotes. rewrite Array_sort_In, filter_In, keepNote_true_iff.
  reflexivity.
Qed.

(** X1: the view is the only arrangement of the visible notes that is in
    descending order of [updatedAt] and keeps the notes of one [updatedAt]
    time in the order of the collection: whatever stable sort the engine
    runs, it returns this list. *)
Theorem filteredNotes_unique (notes : list Note) (activeTagId : option jsstring)
    (searchTerm : jsstring) (visibleNotes arranged : list Note) :
  (forall n, In n notes -> time n <> None) ->
  Selects (fun n => tagMatches activeTagId n /\
                    searchMatches toLowerCase searchTerm n)
          notes visibleNotes ->
  Permutation arranged visibleNotes ->
  StronglySorted (notOlder Date_getTime) arranged ->
  (forall t, filter (updatedAtTime Date_getTime t) arranged
             = filter (updatedAtTime Date_getTime t) visibleNotes) ->
  arranged = view notes activeTagId searchTerm.
Proof.
  intros Hv Hsel Hperm Hsorted Hstable.
  assert (Evis : visibleNotes = filter (keep activeTagId searchTerm) notes).
  { eapply Selects_unique; [exact Hsel|].
    apply filter_Selects. intros n. apply keepNote_true_iff. }
  subst visibleNotes.
  assert (Hv' : forall n, In n (filter (keep activeTagId searchTerm) notes) ->
                          time n <> None).
  { intros n Hn. apply filter_In in Hn. apply Hv, Hn. }
  assert (Hva : forall n, In n arranged -> time n <> None).
  { intros n Hn. apply Hv'. eapply Permutation_in; eassumption. }
  unfold filteredNotes.
  apply Array_sort_unique with (key := tkey).
  - apply byUpdatedAtDesc_descending. assumption.
  - clear Hstable Hperm. induction Hsorted as [|x l Hs IH Hx]; constructor.
    + apply IH. intros n Hn. apply Hva. right; assumption.
    + rewrite Forall_forall in *. intros y Hy.
      destruct (Hx y Hy) as [tx [ty [Ex [Ey Hle]]]].
      unfold timeKey. rewrite Ex, Ey. assumption.
  - intros t. rewrite <- !updatedAtTime_keyIs by assumption. apply Hstable.
Qed.

End ViewFacts.

(** The theorem at the five sample notes, filtered by the tag [t1] and the
    search term [MEETING]. *)
Lemma filteredNotes_spec_witness :
  exists visibleNotes,
    Selects (fun n => tagMatches (Some (js "t1")) n /\
                      searchMatches asciiToLowerCase (js "MEETING") n)
            Sample.fiveNotes visibleNotes /\
    Permutation (filteredNotes asciiToLowerCase isoGetTime Sample.fiveNotes
                               (Some (js "t1")) (js "MEETING")) visibleNotes /\
    StronglySorted (notOlder isoGetTime)
      (filteredNotes asciiToLowerCase isoGetTime Sample.fiveNotes
                     (Some (js "t1")) (js "MEETING")) /\
    forall t, filter (updatedAtTime isoGetTime t)
                     (filteredNotes asciiToLowerCase isoGetTime Sample.fiveNotes
                                    (Some (js "t1")) (js "MEETING"))
              = filter (updatedAtTime isoGetTime t) visibleNotes.
Proof.
  apply (filteredNotes_spec asciiToLowerCase isoGetTime Sample.fiveNotes
           (Some (js "t1")) (js "MEETING")).
  intros n Hn. simpl in Hn.
  repeat (destruct Hn as [<-|Hn]; [vm_compute; discriminate|]).
  contradiction.
Defined.

(** The theorem at the five sample notes and the tag [t1]: the arrangement
    [ideas], [meeting] is the view. *)
Lemma filteredNotes_unique_witness :
  [Sample.ideas; Sample.meeting]
  = filteredNotes asciiToLowerCase isoGetTime Sample.fiveNotes
                  (Some (js "t1")) [].
Proof.
  apply (@filteredNotes_unique asciiToLowerCase isoGetTime Sample.fiveNotes
           (Some (js "t1")) [] [Sample.meeting; Sample.ideas]
           [Sample.ideas; Sample.meeting]).
  - intros n Hn. unfold Sample.fiveNotes in Hn. simpl in Hn.
    repeat (destruct Hn as [<-|Hn]; [vm_compute; discriminate|]).
    contradiction.
  - change [Sample.meeting; Sample.ideas]
      with (filter (keepNote asciiToLowerCase (Some (js "t1")) [])
                   Sample.fiveNotes).
    apply filter_Selects. intros n. apply keepNote_true_iff.
  - apply perm_swap.
  - apply SSorted_cons;
      [apply SSorted_cons; [apply SSorted_nil | apply Forall_nil]|].
    apply Forall_cons; [|apply Forall_nil].
    exists 1709460000000%Z, 1709283600000%Z.
    split; [vm_compute; reflexivity|].
    split; [vm_compute; reflexivity | lia].
  - intros t. unfold updatedAtTime, updatedTime. cbn [filter].
    change (isoGetTime (Note.updatedAt Sample.ideas))
      with (Some 1709460000000%Z).
    change (isoGetTime (Note.updatedAt Sample.meeting))
      with (Some 1709283600000%Z).
    cbv iota.
    destruct (Z.eqb_spec 1709460000000 t), (Z.eqb_spec 1709283600000 t);
      try reflexivity; lia.
Defined.

(** With the empty string as the active tag filter the view shows a note
    without any tag: the filter is set, and the note's tag list does not
    contain it. *)
Lemma filteredNotes_empty_filter_counterexample :
  In Sample.groceries
     (filteredNotes asciiToLowerCase isoGetTime Sample.fiveNotes (Some []) []) /\
  ~ tagMatchesAsStated (Some []) Sample.groceries.
Proof.
  split.
  - vm_compute. auto.
  - simpl. tauto.
Qed.

(** Two of the five notes carry the tag [t1]; the view shows exactly those,
    the more recently updated first. *)
Example filteredNotes_by_tag :
  filteredNotes asciiToLowerCase isoGetTime Sample.fiveNotes (Some (js "t1")) []
  = [Sample.ideas; Sample.meeting].
Proof. vm_compute. reflexivity. Qed.

(** The search term [meeting] finds the title [Meeting notes] and the
    content [... MEETING]. *)
Example filteredNotes_by_search :
  filteredNotes asciiToLowerCase isoGetTime Sample.fiveNotes None (js "meeting")
  = [Sample.ideas; Sample.meeting].
Proof. vm_compute. reflexivity. Qed.

(** Without filter and search all notes are shown, most recent first; the
    two notes updated at the same time keep their order. *)
Example filteredNotes_all :
  filteredNotes asciiToLowerCase isoGetTime Sample.fiveNotes None []
  = [Sample.groceries; Sample.travel; Sample.ideas; Sample.meeting;
     Sample.draft].
Proof. vm_compute. reflexivity. Qed.

(** With an [updatedAt] that is not a date the comparator answers [NaN] and
    ECMAScript leaves the order open; the order of the collection can then
    survive, an older note before a newer one. *)
Example filteredNotes_invalid_date :
  filteredNotes asciiToLowerCase isoGetTime
    [Sample.draft;
     Note.mk (js "n6") [] [] [] (js "yesterday") (js "yesterday");
     Sample.meeting] None []
  = [Sample.draft;
     Note.mk (js "n6") [] [] [] (js "yesterday") (js "yesterday");
     Sample.meeting].
Proof. vm_compute. reflexivity. Qed.

(* ================================================================== *)
(** * The note collection controller *)
(* ================================================================== *)

Lemma notes_AddNote (s : AppState) (uuid createdNow updatedNow : jsstring) :
  notes (dispatch (AddNote uuid createdNow updatedNow) s)
  = newNote s uuid createdNow updatedNow :: notes s.
Proof. reflexivity. Qed.

Lemma notes_SaveNote (s : AppState) (u : Note) :
  notes (dispatch (SaveNote u) s)
  = List.map (fun n => if strictEq (Note.id n) (Note.id u) then u else n)
             (notes s).
Proof. reflexivity. Qed.

Lemma notes_DeleteNote (s : AppState) (noteId : jsstring) :
  notes (dispatch (DeleteNote noteId) s)
  = filter (fun n => negb (strictEq (Note.id n) noteId)) (notes s).
Proof.
  unfold dispatch, handle, handleDeleteNote.
  destruct (strictEqNullable (activeNoteId s) (Some noteId)); reflexivity.
Qed.

Lemma notes_other (s : AppState) (e : Event) :
  isNoteOp e = false -> notes (dispatch e s) = notes s.
Proof. destruct e; simpl; intros H; try discriminate; reflexivity. Qed.

Lemma strictEqNullable_true_iff (a b : option jsstring) :
  strictEqNullable a b = true <-> a = b.
Proof.
  destruct a as [a|], b as [b|]; simpl;
    try (split; [discriminate | congruence]); try tauto.
  rewrite strictEq_true_iff. split; congruence.
Qed.

Lemma noteIds_SaveNote (s : AppState) (u : Note) :
  noteIds (dispatch (SaveNote u) s) = noteIds s.
Proof.
  unfold noteIds. rewrite notes_SaveNote, map_map. apply map_ext.
  intros n. destruct (strictEq (Note.id n) (Note.id u)) eqn:E; [|reflexivity].
  apply strictEq_true_iff in E. congruence.
Qed.

Lemma noteIds_DeleteNote (s : AppState) (noteId : jsstring) :
  noteIds (dispatch (DeleteNote noteId) s)
  = filter (fun i => negb (strictEq i noteId)) (noteIds s).
Proof.
  unfold noteIds. rewrite notes_DeleteNote.
  induction (notes s) as [|n l IH]; simpl; [reflexivity|].
  destruct (strictEq (Note.id n) noteId); simpl; rewrite IH; reflexivity.
Qed.

(** One event keeps the identifiers pairwise distinct. *)
Lemma dispatch_NoDup (s : AppState) (e : Event) :
  generatesFresh s e -> NoDup (noteIds s) -> NoDup (noteIds (dispatch e s)).
Proof.
  intros Hf Hn. destruct e; try exact Hn.
  - unfold noteIds. rewrite notes_AddNote. simpl. constructor; assumption.
  - rewrite noteIds_SaveNote. assumption.
  - rewrite noteIds_DeleteNote. apply NoDup_filter. assumption.
Qed.

(** C2: from a collection whose identifiers are pairwise distinct, every
    state reached by a sequence of events (note creation, save and deletion
    among them), each generated identifier being fresh, has pairwise distinct
    note identifiers. *)
Theorem noteIds_NoDup (s0 s : AppState) :
  NoDup (noteIds s0) -> reachable s0 s -> NoDup (noteIds s).
Proof.
  intros H0 Hr. induction Hr as [|s e Hr IH Hf]; [assumption|].
  apply dispatch_NoDup; assumption.
Qed.

Lemma reachable_trans (s0 s1 s2 : AppState) :
  reachable s0 s1 -> reachable s1 s2 -> reachable s0 s2.
Proof.
  intros H1 H2. induction H2 as [|s e _ IH Hf]; [assumption|].
  apply reachable_step; assumption.
Qed.

Lemma dispatchAll_reachable (events : list Event) (s : AppState) :
  allFresh s events -> reachable s (dispatchAll events s).
Proof.
  revert s. induction events as [|e rest IH]; intros s Hf; simpl.
  - apply reachable_start.
  - destruct Hf as [He Hrest].
    apply reachable_trans with (dispatch e s).
    + apply reachable_step; [apply reachable_start | assumption].
    + apply IH; assumption.
Qed.

(** The theorem along a creation, a save and a deletion from the sample
    state. *)
Lemma noteIds_NoDup_witness :
  NoDup (noteIds (dispatchAll
                    [AddNote (js "n6") (js "2024-03-06T08:00:00.000Z")
                             (js "2024-03-06T08:00:00.000Z");
                     SaveNote (Note.mk (js "n2") (js "Groceries") (js "milk")
                                 [] (js "2024-03-02T08:00:00.000Z")
                                 (js "2024-03-06T09:00:00.000Z"));
                     DeleteNote (js "n1")]
                    Sample.loaded)).
Proof.
  apply (@noteIds_NoDup Sample.loaded).
  - repeat constructor; simpl; intuition discriminate.
  - apply dispatchAll_reachable. simpl. repeat split.
    intuition discriminate.
Defined.

(** C3 (as amended): creation puts at the front of the collection, before
    the earlier notes in their order, a note whose identifier is the
    generated one (so no earlier note has it when it is fresh), whose title
    and content are empty, whose tag list is [[activeTagId]] when the active
    tag filter is a non-empty string and [[]] otherwise, and whose
    [createdAt] and [updatedAt] are the two readings of the clock, in that
    order (so they are equal when the readings are); the new note becomes
    the active note. *)
Theorem handleAddNote_spec (s : AppState)
    (uuid createdNow updatedNow : jsstring) :
  exists n,
    notes (dispatch (AddNote uuid createdNow updatedNow) s) = n :: notes s /\
    Note.id n = uuid /\
    (~ In uuid (noteIds s) -> forall m, In m (notes s) -> Note.id m <> Note.id n) /\
    Note.title n = [] /\
    Note.content n = [] /\
    Note.tags n = match activeTagId s with
                  | Some (c :: t) => [c :: t]
                  | _ => []
                  end /\
    Note.createdAt n = createdNow /\
    Note.updatedAt n = updatedNow /\
    (createdNow = updatedNow -> Note.createdAt n = Note.updatedAt n) /\
    activeNoteId (dispatch (AddNote uuid createdNow updatedNow) s) = Some uuid /\
    activeNote (dispatch (AddNote uuid createdNow updatedNow) s) = Some n.
Proof.
  exists (newNote s uuid createdNow updatedNow).
  repeat split; try reflexivity.
  - intros Hf m Hm E. apply Hf. unfold noteIds. simpl in E. rewrite <- E.
    apply in_map. assumption.
  - unfold newNote. simpl. destruct (activeTagId s) as [[|c t]|]; reflexivity.
  - simpl. auto.
  - unfold activeNote. rewrite notes_AddNote. simpl.
    assert (E : strictEq uuid uuid = true) by (apply strictEq_true_iff; reflexivity).
    rewrite E. reflexivity.
Qed.

(** With the empty string as the active tag filter and a clock that advances
    between the two readings, the new note has an empty tag list (not the
    list of the filter) and a [createdAt] that differs from its
    [updatedAt]. *)
Lemma handleAddNote_counterexample :
  activeTagId Sample.emptyFilter = Some [] /\
  exists n,
    hd_error (notes (dispatch (AddNote (js "n6")
                                 (js "2024-03-06T08:00:00.000Z")
                                 (js "2024-03-06T08:00:00.001Z"))
                              Sample.emptyFilter)) = Some n /\
    Note.tags n = [] /\
    Note.tags n <> [[]] /\
    Note.createdAt n <> Note.updatedAt n.
Proof.
  split; [reflexivity|]. eexists. split; [reflexivity|].
  split; [reflexivity|]. split; [discriminate|]. vm_compute. discriminate.
Qed.

(** Creation without an active tag filter: the new note has no tag and is
    the first of the view. *)
Example handleAddNote_no_filter :
  List.map Note.tags
    (firstn 1 (filteredNotes asciiToLowerCase isoGetTime
       (notes (dispatch (AddNote (js "n6") (js "2024-03-06T08:00:00.000Z")
                                 (js "2024-03-06T08:00:00.000Z"))
                        Sample.loaded))
       None []))
  = [[]] /\
  List.map Note.id
    (firstn 1 (filteredNotes asciiToLowerCase isoGetTime
       (notes (dispatch (AddNote (js "n6") (js "2024-03-06T08:00:00.000Z")
                                 (js "2024-03-06T08:00:00.000Z"))
                        Sample.loaded))
       None []))
  = [js "n6"].
Proof. split; vm_compute; reflexivity. Qed.

(** C4: saving keeps the length of the collection and, position by position,
    puts the replacement record where a note has its identifier and leaves
    every other note as it was; when no note has the identifier the
    collection is unchanged. *)
Theorem handleSaveNote_spec (s : AppState) (updatedNote : Note) :
  length (notes (dispatch (SaveNote updatedNote) s)) = length (notes s) /\
  (forall i n, nth_error (notes s) i = Some n ->
     (Note.id n = Note.id updatedNote ->
      nth_error (notes (dispatch (SaveNote updatedNote) s)) i = Some updatedNote) /\
     (Note.id n <> Note.id updatedNote ->
      nth_error (notes (dispatch (SaveNote updatedNote) s)) i = Some n)) /\
  ((forall n, In n (notes s) -> Note.id n <> Note.id updatedNote) ->
   notes (dispatch (SaveNote updatedNote) s) = notes s).
Proof.
  rewrite notes_SaveNote. split; [apply length_map|]. split.
  - intros i n Hi. rewrite nth_error_map, Hi. simpl.
    destruct (strictEq (Note.id n) (Note.id updatedNote)) eqn:E.
    + apply strictEq_true_iff in E. split; [reflexivity | contradiction].
    + split; [|reflexivity]. intros E'. apply strictEq_true_iff in E'.
      congruence.
  - intros Hno. rewrite <- (map_id (notes s)) at 2. apply map_ext_in.
    intros n Hn. destruct (strictEq (Note.id n) (Note.id updatedNote)) eqn:E;
      [|reflexivity].
    apply strictEq_true_iff in E. exfalso. exact (Hno n Hn E).
Qed.

(** Saving an edited second note replaces it where it stood; saving a record
    whose identifier no note has changes nothing. *)
Example handleSaveNote_example :
  notes (dispatch (SaveNote (Note.mk (js "n2") (js "Groceries") (js "milk")
                               [] (js "2024-03-02T08:00:00.000Z")
                               (js "2024-03-06T09:00:00.000Z")))
                  Sample.loaded)
  = [Sample.meeting;
     Note.mk (js "n2") (js "Groceries") (js "milk") []
             (js "2024-03-02T08:00:00.000Z") (js "2024-03-06T09:00:00.000Z");
     Sample.ideas; Sample.travel; Sample.draft] /\
  notes (dispatch (SaveNote (Note.mk (js "n9") [] [] [] [] [])) Sample.loaded)
  = notes Sample.loaded.
Proof. split; reflexivity. Qed.

(** C5: deletion keeps exactly the notes whose identifier is not the deleted
    one, in their order; it clears the active selection when the deleted
    identifier is the active one and leaves it as it was otherwise. *)
Theorem handleDeleteNote_spec (s : AppState) (noteId : jsstring) :
  Selects (fun n => Note.id n <> noteId) (notes s)
          (notes (dispatch (DeleteNote noteId) s)) /\
  (activeNoteId s = Some noteId ->
   activeNoteId (dispatch (DeleteNote noteId) s) = None) /\
  (activeNoteId s <> Some noteId ->
   activeNoteId (dispatch (DeleteNote noteId) s) = activeNoteId s).
Proof.
  split; [|split].
  - rewrite notes_DeleteNote. apply filter_Selects. intros n.
    rewrite negb_true_iff, <- not_true_iff_false, strictEq_true_iff.
    reflexivity.
  - intros E. unfold dispatch, handle, handleDeleteNote.
    rewrite (proj2 (strictEqNullable_true_iff _ _) E). reflexivity.
  - intros E. unfold dispatch, handle, handleDeleteNote.
    destruct (strictEqNullable (activeNoteId s) (Some noteId)) eqn:E';
      [|reflexivity].
    apply strictEqNullable_true_iff in E'. contradiction.
Qed.

(** Deleting the active note clears the selection; deleting another note
    keeps it. *)
Example handleDeleteNote_example :
  dispatch (DeleteNote (js "n1"))
           (mkState Sample.fiveNotes [] (Some (js "n1")) None [] false true false)
  = mkState [Sample.groceries; Sample.ideas; Sample.travel; Sample.draft] []
            None None [] false true false /\
  dispatch (DeleteNote (js "n2"))
           (mkState Sample.fiveNotes [] (Some (js "n1")) None [] false true false)
  = mkState [Sample.meeting; Sample.ideas; Sample.travel; Sample.draft] []
            (Some (js "n1")) None [] false true false.
Proof. split; reflexivity. Qed.

(* ================================================================== *)
(** * The tag collection controller and the frame of every operation *)
(* ================================================================== *)


(** A second tag is appended after the first. *)
Example handleAddTag_example :
  tags (dispatch (AddTag (js "t2") (js "home")) Sample.loaded)
  = [Sample.work; Tag.mk (js "t2") (js "home")] /\
  snd (handleAddTag (js "t2") (js "home")) = Tag.mk (js "t2") (js "home").
Proof. split; reflexivity. Qed.

(** C10: note creation, save and deletion leave the tags collection, the
    active tag filter and the search term as they are; tag creation leaves
    the notes collection, the active note, the active tag filter and the
    search term as they are. *)
Theorem note_and_tag_operations_frame (s : AppState) :
  (forall e, isNoteOp e = true ->
     tags (dispatch e s) = tags s /\
     activeTagId (dispatch e s) = activeTagId s /\
     searchTerm (dispatch e s) = searchTerm s) /\
  (forall uuid tagName,
     notes (dispatch (AddTag uuid tagName) s) = notes s /\
     activeNoteId (dispatch (AddTag uuid tagName) s) = activeNoteId s /\
     activeTagId (dispatch (AddTag uuid tagName) s) = activeTagId s /\
     searchTerm (dispatch (AddTag uuid tagName) s) = searchTerm s).
Proof.
  split.
  - intros e He. destruct e; try discriminate; try (repeat split; reflexivity).
    unfold dispatch, handle, handleDeleteNote.
    destruct (strictEqNullable _ _); repeat split; reflexivity.
  - intros; repeat split; reflexivity.
Qed.

(* ================================================================== *)
(** * Serializing and parsing back *)
(* ================================================================== *)

Module JSONFacts.
Import JSON.

Lemma hexValue_hexDigit (n : N) : (n < 16)%N -> hexValue (hexDigit n) = Some n.
Proof.
  intros H. unfold hexDigit, hexValue.
  destruct (N.ltb_spec n 10).
  - replace ((48 <=? 48 + n)%N && (48 + n <=? 57)%N) with true.
    + f_equal. lia.
    + symmetry. apply andb_true_iff. split; apply N.leb_le; lia.
  - replace ((48 <=? 87 + n)%N && (87 + n <=? 57)%N) with false.
    + replace ((97 <=? 87 + n)%N && (87 + n <=? 102)%N) with true.
      * f_equal. lia.
      * symmetry. apply andb_true_iff. split; apply N.leb_le; lia.
    + symmetry. apply andb_false_iff. right. apply N.leb_gt. lia.
Qed.

Lemma hex_digits_sum (c : N) :
  (c < 65536)%N ->
  (4096 * ((c / 4096) mod 16) + 256 * ((c / 256) mod 16)
   + 16 * ((c / 16) mod 16) + c mod 16)%N = c.
Proof.
  intros H.
  assert (D1 : (c / 256 = c / 16 / 16)%N)
    by (rewrite N.Div0.div_div; reflexivity).
  assert (D2 : (c / 4096 = c / 16 / 16 / 16)%N)
    by (rewrite !N.Div0.div_div; reflexivity).
  rewrite D1, D2. clear D1 D2.
  assert (E1 := N.div_mod c 16 ltac:(lia)).
  assert (E2 := N.div_mod (c / 16) 16 ltac:(lia)).
  assert (E3 := N.div_mod (c / 16 / 16) 16 ltac:(lia)).
  assert (E4 := N.div_mod (c / 16 / 16 / 16) 16 ltac:(lia)).
  assert (B1 := N.mod_lt c 16 ltac:(lia)).
  assert (B2 := N.mod_lt (c / 16) 16 ltac:(lia)).
  assert (B3 := N.mod_lt (c / 16 / 16) 16 ltac:(lia)).
  assert (B4 := N.mod_lt (c / 16 / 16 / 16) 16 ltac:(lia)).
  generalize dependent (c mod 16)%N.
  generalize dependent ((c / 16) mod 16)%N.
  generalize dependent ((c / 16 / 16) mod 16)%N.
  generalize dependent ((c / 16 / 16 / 16) mod 16)%N.
  generalize dependent (c / 16 / 16 / 16 / 16)%N.
  generalize dependent (c / 16 / 16 / 16)%N.
  generalize dependent (c / 16 / 16)%N.
  generalize dependent (c / 16)%N.
  intros. lia.
Qed.

(** An escape [\uXXXX] is read back as the code unit it was written for. *)
Lemma parseStringBody_UnicodeEscape (c : N) (rest : jsstring) :
  (c < 65536)%N ->
  parseStringBody (UnicodeEscape c ++ rest)
  = match parseStringBody rest with
    | Some (str, r) => Some (c :: str, r)
    | None => None
    end.
Proof.
  intros H. unfold UnicodeEscape. cbn [app parseStringBody].
  change (92 =? 34)%N with false. change (92 =? 92)%N with true.
  change (117 =? 117)%N with true. cbv iota.
  rewrite !hexValue_hexDigit by (apply N.mod_lt; lia).
  rewrite hex_digits_sum by assumption. reflexivity.
Qed.

Lemma parseStringBody_raw (c : N) (rest : jsstring) :
  c <> 34%N -> c <> 92%N -> (32 <= c)%N ->
  parseStringBody (c :: rest)
  = match parseStringBody rest with
    | Some (str, r) => Some (c :: str, r)
    | None => None
    end.
Proof.
  intros H1 H2 H3. cbn [parseStringBody].
  rewrite (proj2 (N.eqb_neq c 34) H1), (proj2 (N.eqb_neq c 92) H2).
  rewrite (proj2 (N.ltb_ge c 32) H3). reflexivity.
Qed.

Lemma parseStringBody_quoteUnit (c : N) (rest : jsstring) :
  (c < 65536)%N ->
  parseStringBody (quoteUnit c ++ rest)
  = match parseStringBody rest with
    | Some (str, r) => Some (c :: str, r)
    | None => None
    end.
Proof.
  intros H. unfold quoteUnit.
  repeat match goal with
         | |- context [if (c =? ?k)%N then _ else _] =>
             destruct (N.eqb_spec c k); [subst c; reflexivity|]
         end.
  destruct (N.ltb_spec c 32).
  - apply parseStringBody_UnicodeEscape; assumption.
  - apply parseStringBody_raw; assumption.
Qed.

Lemma parseStringBody_quoteUnits_bounded (k : nat) (s rest : jsstring) :
  List.length s <= k ->
  parseStringBody (quoteUnits s ++ 34%N :: rest) = Some (s, rest).
Proof.
  revert s. induction k as [|k IH]; intros s Hk.
  - destruct s; [reflexivity | simpl in Hk; lia].
  - destruct s as [|c s]; [reflexivity|].
    simpl in Hk. cbn [quoteUnits].
    destruct (isLeadSurrogate c) eqn:Lc.
    + unfold isLeadSurrogate in Lc. apply andb_true_iff in Lc.
      destruct Lc as [L1 L2]. apply N.leb_le in L1, L2.
      destruct s as [|d s].
      * rewrite parseStringBody_UnicodeEscape by lia. reflexivity.
      * destruct (isTrailSurrogate d) eqn:Td.
        -- unfold isTrailSurrogate in Td. apply andb_true_iff in Td.
           destruct Td as [T1 T2]. apply N.leb_le in T1, T2.
           cbn [app]. rewrite parseStringBody_raw by lia.
           rewrite parseStringBody_raw by lia.
           rewrite IH by (simpl in Hk; lia). reflexivity.
        -- rewrite <- app_assoc, parseStringBody_UnicodeEscape by lia.
           rewrite IH by lia. reflexivity.
    + destruct (isTrailSurrogate c) eqn:Tc.
      * unfold isTrailSurrogate in Tc. apply andb_true_iff in Tc.
        destruct Tc as [T1 T2]. apply N.leb_le in T1, T2.
        rewrite <- app_assoc, parseStringBody_UnicodeEscape by lia.
        rewrite IH by lia. reflexivity.
      * rewrite <- app_assoc.
        destruct (N.ltb_spec c 65536) as [Hc|Hc].
        -- rewrite parseStringBody_quoteUnit by assumption.
           rewrite IH by lia. reflexivity.
        -- unfold quoteUnit.
           repeat match goal with
                  | |- context [if (c =? ?k)%N then _ else _] =>
                      destruct (N.eqb_spec c k); [lia|]
                  end.
           destruct (N.ltb_spec c 32); [lia|].
           cbn [app]. rewrite parseStringBody_raw by lia.
           rewrite IH by lia. reflexivity.
Qed.

(** The string parser reads a quoted string back, whatever follows it. *)
Lemma parseStringBody_quoteUnits (s rest : jsstring) :
  parseStringBody (quoteUnits s ++ 34%N :: rest) = Some (s, rest).
Proof. apply parseStringBody_quoteUnits_bounded with (List.length s). lia. Qed.

Lemma parsesTo_QuoteJSONString (d : nat) (s : jsstring) :
  parsesTo (parseValue (S d)) (QuoteJSONString s) (JString s).
Proof.
  intros rest. unfold QuoteJSONString. cbn [app parseValue skipWs].
  change (isWs 34) with false. cbv iota. change (34 =? 34)%N with true.
  cbv iota. rewrite <- app_assoc. cbn [app].
  rewrite parseStringBody_quoteUnits. reflexivity.
Qed.

Lemma startsValue_QuoteJSONString (s : jsstring) :
  startsValue (QuoteJSONString s).
Proof.
  exists 34%N, (quoteUnits s ++ [34%N]).
  repeat split; try reflexivity; discriminate.
Qed.

Lemma skipWs_startsValue (text rest : jsstring) :
  startsValue text -> skipWs (text ++ rest) = text ++ rest.
Proof.
  intros [c [t [-> [Hws _]]]]. cbn [app skipWs]. rewrite Hws. reflexivity.
Qed.

Lemma joinComma_cons (p : jsstring) (parts : list jsstring) :
  parts <> [] -> joinComma (p :: parts) = p ++ 44%N :: joinComma parts.
Proof. destruct parts; [congruence | reflexivity]. Qed.

Lemma joinComma_length (parts : list jsstring) :
  Forall startsValue parts ->
  List.length parts <= List.length (joinComma parts).
Proof.
  induction 1 as [|p parts [c [t [-> _]]] _ IH]; [simpl; lia|].
  destruct parts as [|q parts]; [simpl; lia|].
  rewrite joinComma_cons by discriminate.
  rewrite length_app. cbn [List.length] in *. lia.
Qed.

Lemma startsValue_app (text rest : jsstring) :
  startsValue text -> startsValue (text ++ rest).
Proof.
  intros [c [t [-> H]]]. exists c, (t ++ rest). split; [reflexivity | exact H].
Qed.

Lemma startsValue_joinComma (parts : list jsstring) (rest : jsstring) :
  Forall startsValue parts -> parts <> [] ->
  startsValue (joinComma parts ++ rest).
Proof.
  intros Hs Hne. destruct Hs as [|p parts Hp _]; [congruence|].
  destruct parts as [|q parts].
  - cbn [joinComma]. apply startsValue_app; assumption.
  - rewrite joinComma_cons by discriminate. rewrite <- app_assoc.
    apply startsValue_app; assumption.
Qed.

Section ContainerFacts.
Variable pv : jsstring -> presult value.

(** The element loop reads back the texts of values joined by commas. *)
Lemma parseElements_joinComma (items : list (jsstring * value)) :
  items <> [] ->
  Forall (fun i => parsesTo pv (fst i) (snd i)) items ->
  forall n rest, List.length items <= n ->
    parseElements pv n (joinComma (List.map fst items) ++ 93%N :: rest)
    = POk (List.map snd items) rest.
Proof.
  intros Hne Hall. induction Hall as [|[t v] items Hi _ IH]; [congruence|].
  intros n rest Hn. destruct n as [|n]; [simpl in Hn; lia|].
  destruct items as [|i2 items].
  - cbn [List.map joinComma parseElements fst snd]. cbn [fst snd] in Hi.
    rewrite Hi. cbn [skipWs]. change (isWs 93) with false. cbv iota.
    change (93 =? 44)%N with false. change (93 =? 93)%N with true.
    reflexivity.
  - cbn [List.map]. rewrite joinComma_cons by discriminate.
    cbn [parseElements fst snd]. cbn [fst snd] in Hi.
    rewrite <- app_assoc. rewrite Hi. cbn [app skipWs].
    change (isWs 44) with false. cbv iota. change (44 =? 44)%N with true.
    cbv iota. cbn [List.map] in IH. rewrite IH.
    + reflexivity.
    + discriminate.
    + simpl in Hn |- *. lia.
Qed.

(** The member loop reads back the texts of members joined by commas. *)
Lemma parseMembers_joinComma (members : list (jsstring * (jsstring * value))) :
  members <> [] ->
  Forall (fun m => parsesTo pv (fst (snd m)) (snd (snd m))) members ->
  forall n rest, List.length members <= n ->
    parseMembers pv n
      (joinComma (List.map (fun m => QuoteJSONString (fst m)
                                     ++ 58%N :: fst (snd m)) members)
       ++ 125%N :: rest)
    = POk (List.map (fun m => (fst m, snd (snd m))) members) rest.
Proof.
  intros Hne Hall. induction Hall as [|[k [t v]] members Hm _ IH]; [congruence|].
  intros n rest Hn. destruct n as [|n]; [simpl in Hn; lia|].
  cbn [fst snd] in Hm.
  destruct members as [|m2 members].
  - cbn [List.map joinComma parseMembers fst snd].
    unfold QuoteJSONString. cbn [app skipWs]. change (isWs 34) with false.
    cbv iota. change (34 =? 34)%N with true. cbv iota.
    rewrite <- !app_assoc. cbn [app]. rewrite parseStringBody_quoteUnits.
    cbn [skipWs]. change (isWs 58) with false. cbv iota.
    change (58 =? 58)%N with true. cbv iota.
    rewrite Hm. cbn [skipWs]. change (isWs 125) with false. cbv iota.
    change (125 =? 44)%N with false. change (125 =? 125)%N with true.
    reflexivity.
  - cbn [List.map]. rewrite joinComma_cons by discriminate.
    cbn [parseMembers fst snd].
    unfold QuoteJSONString at 1. cbn [app skipWs]. change (isWs 34) with false.
    cbv iota. change (34 =? 34)%N with true. cbv iota.
    rewrite <- !app_assoc. cbn [app]. rewrite parseStringBody_quoteUnits.
    cbn [skipWs]. change (isWs 58) with false. cbv iota.
    change (58 =? 58)%N with true. cbv iota.
    rewrite <- ?app_assoc. rewrite Hm. cbn [app skipWs].
    change (isWs 44) with false. cbv iota. change (44 =? 44)%N with true.
    cbv iota. cbn [List.map] in IH. rewrite IH.
    + reflexivity.
    + discriminate.
    + simpl in Hn |- *. lia.
Qed.

End ContainerFacts.
(** An array of values that are read back is read back. *)
Lemma parsesTo_SerializeJSONArray (d : nat) (items : list (jsstring * value)) :
  Forall (fun i => parsesTo (parseValue d) (fst i) (snd i)) items ->
  Forall startsValue (List.map fst items) ->
  parsesTo (parseValue (S d)) (SerializeJSONArray (List.map fst items))
           (JArray (List.map snd items)).
Proof.
  intros Hp Hs rest. unfold SerializeJSONArray.
  cbn [app parseValue skipWs]. change (isWs 91) with false. cbv iota.
  change (91 =? 34)%N with false. change (91 =? 91)%N with true. cbv iota.
  rewrite <- app_assoc. cbn [app].
  destruct items as [|i items]; [reflexivity|].
  assert (Hfirst := startsValue_joinComma (93%N :: rest) Hs ltac:(discriminate)).
  destruct Hfirst as [c [t [E [Hws [H93 _]]]]].
  rewrite E at 1. cbn [skipWs]. rewrite Hws.
  rewrite (proj2 (N.eqb_neq c 93) H93).
  rewrite parseElements_joinComma; try assumption.
  - reflexivity.
  - discriminate.
  - rewrite length_app. apply joinComma_length in Hs.
    rewrite length_map in Hs. lia.
Qed.

(** An object of values that are read back is read back. *)
Lemma parsesTo_SerializeJSONObject (d : nat)
    (members : list (jsstring * (jsstring * value))) :
  Forall (fun m => parsesTo (parseValue d) (fst (snd m)) (snd (snd m)))
         members ->
  parsesTo (parseValue (S d))
           (SerializeJSONObject (List.map (fun m => (fst m, fst (snd m))) members))
           (JObject (List.map (fun m => (fst m, snd (snd m))) members)).
Proof.
  intros Hp rest. unfold SerializeJSONObject.
  cbn [app parseValue skipWs]. change (isWs 123) with false. cbv iota.
  change (123 =? 34)%N with false. change (123 =? 91)%N with false.
  change (123 =? 123)%N with true. cbv iota.
  rewrite <- app_assoc. cbn [app]. rewrite map_map. cbn [fst snd].
  destruct members as [|m members]; [reflexivity|].
  match goal with
  | |- context [joinComma ?l] => assert (Hs : Forall startsValue l)
  end.
  { apply Forall_forall. intros t Ht. apply in_map_iff in Ht.
    destruct Ht as [m0 [<- _]]. exists 34%N. eexists.
    repeat split; try reflexivity; discriminate. }
  assert (Hfirst := startsValue_joinComma (125%N :: rest) Hs ltac:(discriminate)).
  destruct Hfirst as [c [t [E [Hws [_ H125]]]]].
  rewrite E at 1. cbn [skipWs]. rewrite Hws.
  rewrite (proj2 (N.eqb_neq c 125) H125).
  rewrite parseMembers_joinComma; try assumption.
  - reflexivity.
  - discriminate.
  - rewrite length_app. apply joinComma_length in Hs.
    rewrite length_map in Hs. lia.
Qed.

(** [JSON.parse] returns the value of a text that is read back at every
    nesting budget from four on. *)
Lemma parse_parsesTo (text : jsstring) (v : value) :
  (forall d, parsesTo (parseValue (4 + d)) text v) ->
  3 <= List.length text ->
  parse text = Returned v.
Proof.
  intros Hp Hl. unfold parse.
  destruct (List.length text) as [|[|[|n]]]; try lia.
  specialize (Hp n []). rewrite app_nil_r in Hp.
  change (S (S (S (S n)))) with (4 + n). rewrite Hp. reflexivity.
Qed.

(** ** The recursion budget of [JSON.parse] is never exhausted *)

Lemma skipWs_length (s : jsstring) : List.length (skipWs s) <= List.length s.
Proof.
  induction s as [|c s IH]; cbn [skipWs List.length]; [lia|].
  destruct (isWs c); cbn [List.length]; lia.
Qed.

Lemma skipWs_cons_length (s r : jsstring) (c : N) :
  skipWs s = c :: r -> List.length r < List.length s.
Proof.
  intros E. assert (H := skipWs_length s). rewrite E in H.
  cbn [List.length] in H. lia.
Qed.

Lemma parseStringBody_bounded (k : nat) (s str r : jsstring) :
  List.length s <= k ->
  parseStringBody s = Some (str, r) -> List.length r < List.length s.
Proof.
  revert s str r. induction k as [|k IH]; intros s str r Hk.
  - destruct s; [discriminate | simpl in Hk; lia].
  - destruct s as [|c s1]; [discriminate|]. cbn [parseStringBody].
    simpl in Hk.
    destruct (c =? 34)%N.
    { intros E; injection E as _ <-. simpl; lia. }
    destruct (c =? 92)%N.
    + destruct s1 as [|e s2]; [discriminate|].
      destruct (e =? 117)%N.
      * destruct s2 as [|h1 [|h2 [|h3 [|h4 s3]]]]; try discriminate.
        destruct (hexValue h1), (hexValue h2), (hexValue h3), (hexValue h4);
          try discriminate.
        destruct (parseStringBody s3) as [[str' r']|] eqn:E3; [|discriminate].
        intros E; injection E as _ <-.
        apply IH in E3; simpl in *; lia.
      * destruct (escapeChar e); [|discriminate].
        destruct (parseStringBody s2) as [[str' r']|] eqn:E2; [|discriminate].
        intros E; injection E as _ <-.
        apply IH in E2; simpl in *; lia.
    + destruct (c <? 32)%N; [discriminate|].
      destruct (parseStringBody s1) as [[str' r']|] eqn:E1; [|discriminate].
      intros E; injection E as _ <-.
      apply IH in E1; simpl in *; lia.
Qed.

Lemma parseStringBody_length (s str r : jsstring) :
  parseStringBody s = Some (str, r) -> List.length r < List.length s.
Proof. apply parseStringBody_bounded with (List.length s). lia. Qed.

Lemma spanDigits_length (s ds r : jsstring) :
  spanDigits s = (ds, r) -> List.length r <= List.length s.
Proof.
  revert ds r. induction s as [|c s IH]; intros ds r; cbn [spanDigits].
  - intros E; injection E as _ <-. lia.
  - destruct (isDigit c).
    + destruct (spanDigits s) as [ds' r'] eqn:E'.
      intros E; injection E as _ <-. specialize (IH _ _ eq_refl).
      simpl; lia.
    + intros E; injection E as _ <-. lia.
Qed.

Lemma numberSign_length (s sign s1 : jsstring) :
  numberSign s = (sign, s1) -> List.length s1 <= List.length s.
Proof.
  unfold numberSign. destruct s as [|c r].
  - intros E; injection E as _ <-. lia.
  - destruct (c =? 45)%N; intros E; injection E as _ <-; simpl; lia.
Qed.

Lemma numberInt_length (s int s2 : jsstring) :
  numberInt s = Some (int, s2) -> List.length s2 < List.length s.
Proof.
  unfold numberInt. destruct s as [|c r]; [discriminate|].
  destruct (isDigit c); [|discriminate].
  destruct (c =? 48)%N.
  - intros E; injection E as _ <-. simpl; lia.
  - destruct (spanDigits r) as [ds r'] eqn:Es.
    apply spanDigits_length in Es.
    intros E; injection E as _ <-. simpl; lia.
Qed.

Lemma numberFrac_length (s fr s3 : jsstring) :
  numberFrac s = Some (fr, s3) -> List.length s3 <= List.length s.
Proof.
  unfold numberFrac. destruct s as [|p r].
  - intros E; injection E as _ <-. lia.
  - destruct (p =? 46)%N.
    + destruct (spanDigits r) as [[|d ds] r'] eqn:Es; [discriminate|].
      apply spanDigits_length in Es.
      intros E; injection E as _ <-. simpl; lia.
    + intros E; injection E as _ <-. lia.
Qed.

Lemma numberExp_length (s ex s4 : jsstring) :
  numberExp s = Some (ex, s4) -> List.length s4 <= List.length s.
Proof.
  unfold numberExp. destruct s as [|e r].
  - intros E; injection E as _ <-. lia.
  - destruct ((e =? 101)%N || (e =? 69)%N).
    + destruct r as [|g r'].
      * cbn [spanDigits]. discriminate.
      * destruct ((g =? 43)%N || (g =? 45)%N).
        -- destruct (spanDigits r') as [[|d ds] r2] eqn:Es; [discriminate|].
           apply spanDigits_length in Es.
           intros E; injection E as _ <-. simpl; lia.
        -- destruct (spanDigits (g :: r')) as [[|d ds] r2] eqn:Es;
             [discriminate|].
           apply spanDigits_length in Es.
           intros E; injection E as _ <-. simpl in *; lia.
    + intros E; injection E as _ <-. lia.
Qed.

Lemma parseNumber_length (s r : jsstring) (v : value) :
  parseNumber s = POk v r -> List.length r < List.length s.
Proof.
  unfold parseNumber.
  destruct (numberSign s) as [sign s1] eqn:E1. apply numberSign_length in E1.
  destruct (numberInt s1) as [[int s2]|] eqn:E2; [|discriminate].
  apply numberInt_length in E2.
  destruct (numberFrac s2) as [[fr s3]|] eqn:E3; [|discriminate].
  apply numberFrac_length in E3.
  destruct (numberExp s3) as [[ex s4]|] eqn:E4; [|discriminate].
  apply numberExp_length in E4.
  intros E; injection E as _ <-. lia.
Qed.

Lemma parseNumber_fuel (s : jsstring) : parseNumber s <> PFuel.
Proof.
  unfold parseNumber.
  destruct (numberSign s) as [sign s1].
  destruct (numberInt s1) as [[int s2]|]; [|discriminate].
  destruct (numberFrac s2) as [[fr s3]|]; [|discriminate].
  destruct (numberExp s3) as [[ex s4]|]; discriminate.
Qed.

Lemma pmap_PFuel (A B : Type) (f : A -> B) (r : presult A) :
  r <> PFuel -> pmap f r <> PFuel.
Proof. destruct r; simpl; congruence. Qed.

Lemma pmap_POk (A B : Type) (f : A -> B) (r : presult A) (b : B)
    (rest : jsstring) :
  pmap f r = POk b rest -> exists a, r = POk a rest.
Proof. destruct r; simpl; try discriminate. intros E; injection E as _ <-. eauto. Qed.

Section ContainerBudget.
Variable pv : jsstring -> presult value.
Hypothesis pv_consumes :
  forall s v r, pv s = POk v r -> List.length r < List.length s.

Lemma parseElements_consumes (n : nat) (s r : jsstring) (vs : list value) :
  parseElements pv n s = POk vs r -> List.length r < List.length s.
Proof.
  revert s r vs. induction n as [|n IH]; intros s r vs; [discriminate|].
  cbn [parseElements].
  destruct (pv s) as [v r1| |] eqn:E1; try discriminate.
  apply pv_consumes in E1.
  destruct (skipWs r1) as [|c r2] eqn:E2; [discriminate|].
  apply skipWs_cons_length in E2.
  destruct (c =? 44)%N.
  - intros H. apply pmap_POk in H. destruct H as [a H]. apply IH in H. lia.
  - destruct (c =? 93)%N; [|discriminate].
    intros H; injection H as _ <-. lia.
Qed.

Lemma parseMembers_consumes (n : nat) (s r : jsstring)
    (ms : list (jsstring * value)) :
  parseMembers pv n s = POk ms r -> List.length r < List.length s.
Proof.
  revert s r ms. induction n as [|n IH]; intros s r ms; [discriminate|].
  cbn [parseMembers].
  destruct (skipWs s) as [|q r0] eqn:E0; [discriminate|].
  apply skipWs_cons_length in E0.
  destruct (q =? 34)%N; [|discriminate].
  destruct (parseStringBody r0) as [[k r1]|] eqn:E1; [|discriminate].
  apply parseStringBody_length in E1.
  destruct (skipWs r1) as [|c r2] eqn:E2; [discriminate|].
  apply skipWs_cons_length in E2.
  destruct (c =? 58)%N; [|discriminate].
  destruct (pv r2) as [v r3| |] eqn:E3; try discriminate.
  apply pv_consumes in E3.
  destruct (skipWs r3) as [|d r4] eqn:E4; [discriminate|].
  apply skipWs_cons_length in E4.
  destruct (d =? 44)%N.
  - intros H. apply pmap_POk in H. destruct H as [a H]. apply IH in H. lia.
  - destruct (d =? 125)%N; [|discriminate].
    intros H; injection H as _ <-. lia.
Qed.

Variable bound : nat.
Hypothesis pv_fuel : forall s, List.length s <= bound -> pv s <> PFuel.

Lemma parseElements_fuel (n : nat) (s : jsstring) :
  List.length s <= bound -> List.length s <= n -> 0 < n ->
  parseElements pv n s <> PFuel.
Proof.
  revert s. induction n as [|n IH]; intros s Hb Hn H0; [lia|].
  cbn [parseElements].
  destruct (pv s) as [v r1| |] eqn:E1; try discriminate.
  - apply pv_consumes in E1.
    destruct (skipWs r1) as [|c r2] eqn:E2; [discriminate|].
    apply skipWs_cons_length in E2.
    destruct (c =? 44)%N.
    + apply pmap_PFuel. apply IH; lia.
    + destruct (c =? 93)%N; discriminate.
  - exfalso. exact (pv_fuel Hb E1).
Qed.

Lemma parseMembers_fuel (n : nat) (s : jsstring) :
  List.length s <= bound -> List.length s <= n -> 0 < n ->
  parseMembers pv n s <> PFuel.
Proof.
  revert s. induction n as [|n IH]; intros s Hb Hn H0; [lia|].
  cbn [parseMembers].
  destruct (skipWs s) as [|q r0] eqn:E0; [discriminate|].
  apply skipWs_cons_length in E0.
  destruct (q =? 34)%N; [|discriminate].
  destruct (parseStringBody r0) as [[k r1]|] eqn:E1; [|discriminate].
  apply parseStringBody_length in E1.
  destruct (skipWs r1) as [|c r2] eqn:E2; [discriminate|].
  apply skipWs_cons_length in E2.
  destruct (c =? 58)%N; [|discriminate].
  destruct (pv r2) as [v r3| |] eqn:E3; try discriminate.
  - apply pv_consumes in E3.
    destruct (skipWs r3) as [|d r4] eqn:E4; [discriminate|].
    apply skipWs_cons_length in E4.
    destruct (d =? 44)%N.
    + apply pmap_PFuel. apply IH; lia.
    + destruct (d =? 125)%N; discriminate.
  - exfalso. apply (@pv_fuel r2); [lia | assumption].
Qed.

End ContainerBudget.

(** A value that is read takes at least one character. *)
Lemma parseValue_consumes (d : nat) (s r : jsstring) (v : value) :
  parseValue d s = POk v r -> List.length r < List.length s.
Proof.
  revert s r v. induction d as [|d IH]; intros s r v; [discriminate|].
  cbn [parseValue].
  destruct (skipWs s) as [|c r0] eqn:E0; [discriminate|].
  assert (L0 := skipWs_length s). rewrite E0 in L0.
  apply skipWs_cons_length in E0.
  destruct (c =? 34)%N.
  { destruct (parseStringBody r0) as [[str r1]|] eqn:E1; [|discriminate].
    apply parseStringBody_length in E1.
    intros H; injection H as _ <-. lia. }
  destruct (c =? 91)%N.
  { destruct (skipWs r0) as [|e r1] eqn:E1; [discriminate|].
    apply skipWs_cons_length in E1.
    destruct (e =? 93)%N.
    - intros H; injection H as _ <-. lia.
    - intros H. apply pmap_POk in H. destruct H as [a H].
      apply parseElements_consumes in H; [lia|].
      intros s' v' r'. apply IH. }
  destruct (c =? 123)%N.
  { destruct (skipWs r0) as [|e r1] eqn:E1; [discriminate|].
    apply skipWs_cons_length in E1.
    destruct (e =? 125)%N.
    - intros H; injection H as _ <-. lia.
    - intros H. apply pmap_POk in H. destruct H as [a H].
      apply parseMembers_consumes in H; [lia|].
      intros s' v' r'. apply IH. }
  destruct (startsWith (js "true") (c :: r0)).
  { intros H. assert (Hr : r = skipn 4 (c :: r0)) by congruence.
    rewrite Hr, length_skipn. cbn [List.length] in *. lia. }
  destruct (startsWith (js "false") (c :: r0)).
  { intros H. assert (Hr : r = skipn 5 (c :: r0)) by congruence.
    rewrite Hr, length_skipn. cbn [List.length] in *. lia. }
  destruct (startsWith (js "null") (c :: r0)).
  { intros H. assert (Hr : r = skipn 4 (c :: r0)) by congruence.
    rewrite Hr, length_skipn. cbn [List.length] in *. lia. }
  intros H. apply parseNumber_length in H. cbn [List.length] in *. lia.
Qed.

(** A nesting budget above the length of the text is never exhausted. *)
Lemma parseValue_fuel (d : nat) (s : jsstring) :
  List.length s < d -> parseValue d s <> PFuel.
Proof.
  revert s. induction d as [|d IH]; intros s Hd; [lia|].
  cbn [parseValue].
  destruct (skipWs s) as [|c r0] eqn:E0; [discriminate|].
  apply skipWs_cons_length in E0.
  destruct (c =? 34)%N.
  { destruct (parseStringBody r0) as [[str r1]|]; discriminate. }
  destruct (c =? 91)%N.
  { destruct (skipWs r0) as [|e r1] eqn:E1; [discriminate|].
    destruct (e =? 93)%N; [discriminate|].
    apply pmap_PFuel.
    apply parseElements_fuel with (bound := List.length r0); try lia.
    - intros s' v' r'. apply parseValue_consumes.
    - intros s' Hs'. apply IH. lia.
    - apply skipWs_cons_length in E1. lia. }
  destruct (c =? 123)%N.
  { destruct (skipWs r0) as [|e r1] eqn:E1; [discriminate|].
    destruct (e =? 125)%N; [discriminate|].
    apply pmap_PFuel.
    apply parseMembers_fuel with (bound := List.length r0); try lia.
    - intros s' v' r'. apply parseValue_consumes.
    - intros s' Hs'. apply IH. lia.
    - apply skipWs_cons_length in E1. lia. }
  destruct (startsWith (js "true") (c :: r0)); [discriminate|].
  destruct (startsWith (js "false") (c :: r0)); [discriminate|].
  destruct (startsWith (js "null") (c :: r0)); [discriminate|].
  apply parseNumber_fuel.
Qed.

(** The budget [JSON.parse] gives the parser is enough for every text: a
    [Thrown] result always stands for a syntax error. *)
Lemma parseValue_enough_fuel (text : jsstring) :
  parseValue (S (List.length text)) text <> PFuel.
Proof. apply parseValue_fuel. lia. Qed.

End JSONFacts.

(* ================================================================== *)
(** * The round trip of the two collections *)
(* ================================================================== *)

Import JSONFacts.

Lemma traverse_map (A B : Type) (f : A -> option B) (g : B -> A) (l : list B) :
  (forall b, f (g b) = Some b) -> traverse f (List.map g l) = Some l.
Proof.
  intros H. induction l as [|b l IH]; [reflexivity|].
  cbn [List.map traverse]. rewrite H, IH. reflexivity.
Qed.

Lemma parsesTo_strings (d : nat) (l : list jsstring) :
  parsesTo (parseValue (S (S d))) (SerializeJSONArray (List.map QuoteJSONString l))
           (JArray (List.map JString l)).
Proof.
  assert (E1 : List.map QuoteJSONString l
               = List.map fst (List.map (fun t => (QuoteJSONString t, JString t)) l))
    by (rewrite map_map; reflexivity).
  assert (E2 : List.map JString l
               = List.map snd (List.map (fun t => (QuoteJSONString t, JString t)) l))
    by (rewrite map_map; reflexivity).
  rewrite E1, E2. apply parsesTo_SerializeJSONArray.
  - apply Forall_forall. intros i Hi. apply in_map_iff in Hi.
    destruct Hi as [t [<- _]]. apply parsesTo_QuoteJSONString.
  - rewrite <- E1. apply Forall_forall. intros t Ht. apply in_map_iff in Ht.
    destruct Ht as [u [<- _]]. apply startsValue_QuoteJSONString.
Qed.

Lemma parsesTo_stringifyNote (d : nat) (n : Note) :
  parsesTo (parseValue (S (S (S d)))) (stringifyNote n) (noteValue n).
Proof.
  apply (parsesTo_SerializeJSONObject (S (S d)) (members :=
    [(js "id", (QuoteJSONString (Note.id n), JString (Note.id n)));
     (js "title", (QuoteJSONString (Note.title n), JString (Note.title n)));
     (js "content", (QuoteJSONString (Note.content n), JString (Note.content n)));
     (js "tags", (SerializeJSONArray (List.map QuoteJSONString (Note.tags n)),
                  JArray (List.map JString (Note.tags n))));
     (js "createdAt", (QuoteJSONString (Note.createdAt n),
                       JString (Note.createdAt n)));
     (js "updatedAt", (QuoteJSONString (Note.updatedAt n),
                       JString (Note.updatedAt n)))])).
  repeat constructor; cbn [fst snd];
    first [apply parsesTo_QuoteJSONString | apply parsesTo_strings].
Qed.

Lemma parsesTo_stringifyTag (d : nat) (t : Tag) :
  parsesTo (parseValue (S (S d))) (stringifyTag t) (tagValue t).
Proof.
  apply (parsesTo_SerializeJSONObject (S d) (members :=
    [(js "id", (QuoteJSONString (Tag.id t), JString (Tag.id t)));
     (js "name", (QuoteJSONString (Tag.name t), JString (Tag.name t)))])).
  repeat constructor; cbn [fst snd]; apply parsesTo_QuoteJSONString.
Qed.

Lemma startsValue_SerializeJSONObject (members : list (jsstring * jsstring)) :
  startsValue (SerializeJSONObject members).
Proof.
  exists 123%N. eexists. repeat split; try reflexivity; discriminate.
Qed.

Lemma parsesTo_stringify_notes (d : nat) (l : list Note) :
  parsesTo (parseValue (4 + d)) (JSON_stringify_notes l) (notesValue l).
Proof.
  unfold JSON_stringify_notes, notesValue.
  assert (E1 : List.map stringifyNote l
               = List.map fst (List.map (fun n => (stringifyNote n, noteValue n)) l))
    by (rewrite map_map; reflexivity).
  assert (E2 : List.map noteValue l
               = List.map snd (List.map (fun n => (stringifyNote n, noteValue n)) l))
    by (rewrite map_map; reflexivity).
  rewrite E1, E2. apply parsesTo_SerializeJSONArray.
  - apply Forall_forall. intros i Hi. apply in_map_iff in Hi.
    destruct Hi as [n [<- _]]. apply parsesTo_stringifyNote.
  - rewrite <- E1. apply Forall_forall. intros t Ht. apply in_map_iff in Ht.
    destruct Ht as [n [<- _]]. apply startsValue_SerializeJSONObject.
Qed.

Lemma parsesTo_stringify_tags (d : nat) (l : list Tag) :
  parsesTo (parseValue (4 + d)) (JSON_stringify_tags l) (tagsValue l).
Proof.
  unfold JSON_stringify_tags, tagsValue.
  assert (E1 : List.map stringifyTag l
               = List.map fst (List.map (fun t => (stringifyTag t, tagValue t)) l))
    by (rewrite map_map; reflexivity).
  assert (E2 : List.map tagValue l
               = List.map snd (List.map (fun t => (stringifyTag t, tagValue t)) l))
    by (rewrite map_map; reflexivity).
  rewrite E1, E2. apply parsesTo_SerializeJSONArray.
  - apply Forall_forall. intros i Hi. apply in_map_iff in Hi.
    destruct Hi as [t [<- _]]. apply parsesTo_stringifyTag.
  - rewrite <- E1. apply Forall_forall. intros t Ht. apply in_map_iff in Ht.
    destruct Ht as [u [<- _]]. apply startsValue_SerializeJSONObject.
Qed.

Lemma SerializeJSONArray_length (parts : list jsstring) :
  Forall startsValue parts -> parts <> [] ->
  3 <= List.length (SerializeJSONArray parts).
Proof.
  intros Hs Hne. unfold SerializeJSONArray. cbn [List.length].
  rewrite length_app. apply joinComma_length in Hs.
  destruct parts; [congruence|]. simpl in *. lia.
Qed.

Lemma JSON_parse_stringify_notes (l : list Note) :
  JSON.parse (JSON_stringify_notes l) = Returned (notesValue l).
Proof.
  destruct l as [|n l]; [reflexivity|].
  apply parse_parsesTo.
  - intros d. apply parsesTo_stringify_notes.
  - apply SerializeJSONArray_length; [|discriminate].
    apply Forall_forall. intros t Ht. apply in_map_iff in Ht.
    destruct Ht as [m [<- _]]. apply startsValue_SerializeJSONObject.
Qed.

Lemma JSON_parse_stringify_tags (l : list Tag) :
  JSON.parse (JSON_stringify_tags l) = Returned (tagsValue l).
Proof.
  destruct l as [|t l]; [reflexivity|].
  apply parse_parsesTo.
  - intros d. apply parsesTo_stringify_tags.
  - apply SerializeJSONArray_length; [|discriminate].
    apply Forall_forall. intros u Hu. apply in_map_iff in Hu.
    destruct Hu as [m [<- _]]. apply startsValue_SerializeJSONObject.
Qed.

Lemma asNote_noteValue (n : Note) : asNote (noteValue n) = Some n.
Proof.
  destruct n as [i t c tg ca ua]. unfold asNote, noteValue, field.
  cbn [Note.id Note.title Note.content Note.tags Note.createdAt Note.updatedAt].
  cbn -[traverse]. fold (traverse asString (List.map JString tg)).
  rewrite (traverse_map asString JString tg) by reflexivity. reflexivity.
Qed.

Lemma asTag_tagValue (t : Tag) : asTag (tagValue t) = Some t.
Proof. destruct t; reflexivity. Qed.

Lemma asNotes_notesValue (l : list Note) : asNotes (notesValue l) = Some l.
Proof. apply traverse_map, asNote_noteValue. Qed.

Lemma asTags_tagsValue (l : list Tag) : asTags (tagsValue l) = Some l.
Proof. apply traverse_map, asTag_tagValue. Qed.

(** C8: [JSON.parse] reads what [JSON.stringify] writes for a notes
    collection as the JSON value of that collection, which the notes cell
    holds as the collection itself; and the same for a tags collection. *)
Theorem stringify_parse_roundtrip :
  (forall l : list Note,
     JSON.parse (JSON_stringify_notes l) = Returned (notesValue l) /\
     asNotes (notesValue l) = Some l) /\
  (forall l : list Tag,
     JSON.parse (JSON_stringify_tags l) = Returned (tagsValue l) /\
     asTags (tagsValue l) = Some l).
Proof.
  split; intros l; split.
  - apply JSON_parse_stringify_notes.
  - apply asNotes_notesValue.
  - apply JSON_parse_stringify_tags.
  - apply asTags_tagsValue.
Qed.

(* ================================================================== *)
(** * Loading at startup *)
(* ================================================================== *)

Lemma commit_app (c1 c2 : list Call) (s : AppState) :
  commit (c1 ++ c2) s = commit c2 (commit c1 s).
Proof. apply fold_left_app. Qed.

(** The save effects of the first render, which is not initialized, do
    nothing. *)
Lemma saveEffects_initialState (w : World) :
  saveNotesEffect w initialState = ret tt /\
  saveTagsEffect w initialState = ret tt.
Proof. split; reflexivity. Qed.

(** A parsed value handed to a setter is no write to the store. *)
Lemma setParsed_not_write (v : value) (key text : jsstring) :
  setNotesParsed v <> SetItemCall key text /\
  setTagsParsed v <> SetItemCall key text.
Proof.
  unfold setNotesParsed, setTagsParsed.
  destruct (asNotes v), (asTags v); split; discriminate.
Qed.

(** The load effect never writes to the store, always ends normally, and
    ends by marking initialization complete. *)
Lemma loadEffect_calls (w : World) (calls : list Call) (o : outcome unit) :
  loadEffect w = (calls, o) ->
  (forall key text, ~ In (SetItemCall key text) calls) /\
  (o = Done tt ->
   exists before, calls = before ++ [SetStateCall (SetIsInitialized true)]) /\
  (forall e, o <> Raised e) /\
  o = Done tt.
Proof.
  unfold loadEffect, tryFinally, tryCatch, bind, lift, call, ret.
  repeat (cbn [app];
          match goal with
          | |- context [match ?x with _ => _ end] =>
              lazymatch x with
              | context [match _ with _ => _ end] => fail
              | _ => destruct x
              end
          end);
    intros H; injection H as <- <-;
    (split; [|split; [|split]]);
    try reflexivity;
    try (intros e; discriminate);
    try (intros key text' Hin; simpl in Hin;
         repeat match type of Hin with
                | _ \/ _ => destruct Hin as [Hin|Hin]
                end;
         try discriminate; try contradiction;
         first [ exact (proj1 (setParsed_not_write _ _ _) Hin)
               | exact (proj2 (setParsed_not_write _ _ _) Hin) ]);
    intros _;
    first [ eexists []; reflexivity
          | eexists [_]; reflexivity
          | eexists [_; _]; reflexivity ].
Qed.

Lemma saveNotesEffect_initialized (w : World) (s : AppState) :
  isInitialized s = true -> saveNotesEffect w s = (notesWrite w s, Done tt).
Proof.
  intros H. unfold saveNotesEffect, notesWrite, writeCalls, storageSetItem.
  rewrite H. destruct (setItem w _ _) as [[]|e]; reflexivity.
Qed.

Lemma saveTagsEffect_initialized (w : World) (s : AppState) :
  isInitialized s = true -> saveTagsEffect w s = (tagsWrite w s, Done tt).
Proof.
  intros H. unfold saveTagsEffect, tagsWrite, writeCalls, storageSetItem.
  rewrite H. destruct (setItem w _ _) as [[]|e]; reflexivity.
Qed.

(** The calls of the effects that follow a render of an initialized state. *)
Lemma effectsAfter_initialized (w : World) (calls : list Call)
    (prev cur : AppState) :
  isInitialized cur = true ->
  effectsAfter w calls prev cur
  = ((if existsb setsNotes calls || xorb (isInitialized prev) (isInitialized cur)
      then notesWrite w cur else [])
     ++ (if existsb setsTags calls || xorb (isInitialized prev) (isInitialized cur)
         then tagsWrite w cur else []),
     Done tt).
Proof.
  intros H. unfold effectsAfter.
  rewrite saveNotesEffect_initialized, saveTagsEffect_initialized by assumption.
  destruct (existsb setsNotes calls || _), (existsb setsTags calls || _);
    cbn; rewrite ?app_nil_r; reflexivity.
Qed.

Lemma effectsAfter_uninitialized (w : World) (calls : list Call)
    (prev cur : AppState) :
  isInitialized cur = false -> effectsAfter w calls prev cur = ([], Done tt).
Proof.
  intros H. unfold effectsAfter, saveNotesEffect, saveTagsEffect. rewrite H.
  destruct (existsb setsNotes calls || _), (existsb setsTags calls || _);
    reflexivity.
Qed.

Lemma commit_writeCalls (w : World) (key text message : jsstring)
    (s : AppState) :
  commit (writeCalls w key text message) s = s.
Proof. unfold writeCalls. destruct (setItem w key text); reflexivity. Qed.

(** The save effects set no state. *)
Lemma commit_effectsAfter (w : World) (calls : list Call) (prev cur s : AppState) :
  commit (fst (effectsAfter w calls prev cur)) s = s.
Proof.
  destruct (isInitialized cur) eqn:E.
  - rewrite effectsAfter_initialized by assumption. cbn [fst].
    rewrite commit_app.
    destruct (existsb setsNotes calls || _), (existsb setsTags calls || _);
      unfold notesWrite, tagsWrite; rewrite ?commit_writeCalls; reflexivity.
  - rewrite effectsAfter_uninitialized by assumption. reflexivity.
Qed.

Lemma commit_SetStateCalls (actions : list SetStateAction) (s : AppState) :
  commit (List.map SetStateCall actions) s = applyActions actions s.
Proof.
  revert s. induction actions as [|a actions IH]; intros s; [reflexivity|].
  cbn. apply IH.
Qed.

(** The state after an event is the one its handler's setter calls lead to,
    however the store answers. *)
Lemma react_state (w : World) (e : Event) (s : AppState) :
  fst (react w e s) = dispatch e s.
Proof.
  unfold react. rewrite commit_SetStateCalls.
  assert (H := commit_effectsAfter w (List.map SetStateCall (handle s e)) s
                 (applyActions (handle s e) s) (applyActions (handle s e) s)).
  destruct (effectsAfter w _ s _) as [calls2 o]. exact H.
Qed.

Lemma react_trace (w : World) (e : Event) (s : AppState) :
  snd (react w e s)
  = List.map Called (List.map SetStateCall (handle s e))
    ++ Rendered (dispatch e s)
    :: List.map Called
         (fst (effectsAfter w (List.map SetStateCall (handle s e)) s
                            (dispatch e s))).
Proof.
  unfold react. rewrite commit_SetStateCalls. fold (dispatch e s).
  destruct (effectsAfter w _ s _) as [calls2 o]. reflexivity.
Qed.

Lemma isInitialized_dispatch (e : Event) (s : AppState) :
  isInitialized (dispatch e s) = isInitialized s.
Proof.
  destruct e; try reflexivity.
  unfold dispatch, handle, handleDeleteNote.
  destruct (strictEqNullable _ _); reflexivity.
Qed.

(** Mounting, when the load effect makes the calls [calls], none of them
    with a value of another shape. *)
Lemma mount_loaded (w : World) (calls : list Call) :
  loadEffect w = (calls, Done tt) ->
  existsb setsForeign calls = false ->
  mount w
  = Some (commit calls initialState,
          Rendered initialState :: List.map Called calls
          ++ Rendered (commit calls initialState)
          :: List.map Called (notesWrite w (commit calls initialState)
                              ++ tagsWrite w (commit calls initialState))) /\
  isInitialized (commit calls initialState) = true.
Proof.
  intros H Hf. assert (Hc := loadEffect_calls w H).
  destruct Hc as [_ [Hlast _]]. destruct (Hlast eq_refl) as [before Eb].
  assert (Hi : isInitialized (commit calls initialState) = true).
  { rewrite Eb, commit_app. reflexivity. }
  split; [|exact Hi].
  unfold mount. rewrite H. cbn [bind saveNotesEffect saveTagsEffect
    isInitialized initialState ret]. rewrite !app_nil_r, Hf.
  rewrite effectsAfter_initialized by assumption. rewrite Hi.
  cbn [isInitialized initialState xorb orb]. rewrite !orb_true_r.
  rewrite commit_app. unfold notesWrite at 1, tagsWrite at 1.
  rewrite !commit_writeCalls. reflexivity.
Qed.

(** C6 (as amended): when reading a stored collection throws, or a stored
    text that is not empty is not JSON, the application still mounts; the
    failure is logged; initialization is marked complete; the tags
    collection is empty; and the notes collection is empty too unless the
    failure is that of the tags text after the notes text was deserialized
    into a notes collection, in which case the notes collection is that
    one.  Nothing else of the state differs from the initial state, and
    what is rendered is not the loading text.
    ([LoadFails] lists the four failures; a notes text that is JSON of
    another shape than a notes collection is not among them, see
    [foreign_notes_render_throws].) *)
Theorem load_failure_falls_back (w : World) (l : list Note) (error : jsstring) :
  LoadFails w l error ->
  exists s t,
    mount w = Some (s, t) /\
    s = mkState l [] None None [] false true false /\
    notes s = l /\
    tags s = [] /\
    isInitialized s = true /\
    In (Called (ConsoleErrorCall (js "Failed to load data from localStorage")
                                 error)) t /\
    forall toLowerCase Date_getTime,
      render toLowerCase Date_getTime s <> Loading.
Proof.
  intros Hf.
  assert (Hl : exists calls,
             loadEffect w = (calls, Done tt) /\
             existsb setsForeign calls = false /\
             commit calls initialState
             = mkState l [] None None [] false true false /\
             In (ConsoleErrorCall (js "Failed to load data from localStorage")
                                  error) calls).
  { destruct Hf as [e H1|sn e H1 H2|text st e H1 H2 Ht Hp
                    |sn l text e H1 Hn H2 Ht Hp];
      unfold loadEffect; rewrite H1; try rewrite H2.
    - eexists. split; [reflexivity|]. cbn. auto.
    - eexists. split; [reflexivity|]. cbn. auto.
    - cbn. rewrite Ht. cbn. rewrite Hp.
      eexists. split; [reflexivity|]. cbn. auto.
    - destruct Hn as [| |text' v l Ht' Hp' Ha].
      + cbn. rewrite Ht. cbn. rewrite Hp.
        eexists. split; [reflexivity|]. cbn. auto.
      + cbn. rewrite Ht. cbn. rewrite Hp.
        eexists. split; [reflexivity|]. cbn. auto.
      + cbn. rewrite Ht'. cbn. rewrite Hp'. cbn.
        unfold setNotesParsed. rewrite Ha.
        rewrite Ht. cbn. rewrite Hp.
        eexists. split; [reflexivity|]. cbn. auto. }
  destruct Hl as [calls [Hload [Hfor [Hs Hlog]]]].
  destruct (mount_loaded w Hload Hfor) as [Hm _]. rewrite Hs in Hm.
  eexists. eexists. split; [exact Hm|].
  repeat split.
  - right. apply in_or_app. left. apply in_map. assumption.
  - intros toLowerCase Date_getTime. unfold render. cbn [isInitialized negb].
    discriminate.
Qed.

(** The theorem at a store whose notes text is not JSON. *)
Lemma load_failure_falls_back_witness :
  exists s t,
    mount Sample.notesTextBroken = Some (s, t) /\
    s = mkState [] [] None None [] false true false /\
    notes s = [] /\
    tags s = [] /\
    isInitialized s = true /\
    In (Called (ConsoleErrorCall (js "Failed to load data from localStorage")
                                 (js "SyntaxError"))) t /\
    forall toLowerCase Date_getTime,
      render toLowerCase Date_getTime s <> Loading.
Proof.
  apply (@load_failure_falls_back Sample.notesTextBroken [] (js "SyntaxError")).
  apply NotesParseThrows
    with (text := js "[{")
         (storedTags := Some (JSON_stringify_tags [Sample.work]));
    reflexivity.
Defined.

(** At a store that holds one note and a tags text that is not JSON, the
    deserialization of the tags fails and is logged, and the notes
    collection is not empty: it holds the stored note. *)
Lemma load_failure_keeps_notes_counterexample :
  JSON.parse (js "{oops") = Thrown (js "SyntaxError") /\
  exists s t,
    mount Sample.tagsTextBroken = Some (s, t) /\
    In (Called (ConsoleErrorCall (js "Failed to load data from localStorage")
                                 (js "SyntaxError"))) t /\
    notes s = [Sample.meeting] /\
    notes s <> [].
Proof.
  split; [reflexivity|].
  eexists. eexists. split; [vm_compute; reflexivity|].
  split; [right; right; left; reflexivity|].
  split; [reflexivity | discriminate].
Qed.

(** A store that refuses every access: the application mounts with empty
    collections and is initialized. *)
Example mount_denied :
  exists t,
    mount Sample.denied
    = Some (mkState [] [] None None [] false true false, t) /\
    In (Called (ConsoleErrorCall (js "Failed to load data from localStorage")
                                 (js "SecurityError"))) t.
Proof. eexists. split; [reflexivity|]. simpl. auto. Qed.

(** Beside C6: a stored notes text that is JSON but not an array.  The load
    effect hands the parsed value to [setNotes] unchecked, as its first call,
    and logs nothing for it; no later call sets the notes; initialization is
    marked complete all the same; the cells then hold no [AppState]; and the
    render that follows throws a [TypeError] at [notes.filter] (l.88). *)
Lemma foreign_notes_render_throws (w : World) (text : jsstring)
    (storedTags : option jsstring) (v : value) :
  getItem w (js "notes_data") = Returned (Some text) ->
  getItem w (js "tags_data") = Returned storedTags ->
  truthy text = true ->
  JSON.parse text = Returned v ->
  (forall elements, v <> JArray elements) ->
  exists rest,
    loadEffect w = (SetForeignCall NotesCell v :: rest, Done tt) /\
    (forall c, In c rest ->
       setsNotes c = false /\ forall v', c <> SetForeignCall NotesCell v') /\
    In (SetStateCall (SetIsInitialized true)) rest /\
    mount w = None /\
    filterOnForeign v = Some (js "TypeError").
Proof.
  intros Hn Ht Htr Hp Hv.
  assert (Ea : setNotesParsed v = SetForeignCall NotesCell v).
  { unfold setNotesParsed. destruct v; try reflexivity.
    exfalso. exact (Hv _ eq_refl). }
  assert (Hf : filterOnForeign v = Some (js "TypeError")).
  { destruct v; try reflexivity. exfalso. exact (Hv _ eq_refl). }
  assert (Hl : exists rest,
             loadEffect w = (SetForeignCall NotesCell v :: rest, Done tt) /\
             (forall c, In c rest ->
                setsNotes c = false /\
                forall v', c <> SetForeignCall NotesCell v') /\
             In (SetStateCall (SetIsInitialized true)) rest).
  { unfold loadEffect. rewrite Hn, Ht. cbn [lift bind ret app].
    rewrite Htr, Hp. cbn [lift bind ret app call]. rewrite Ea.
    destruct storedTags as [text'|].
    - destruct (truthy text').
      + destruct (JSON.parse text') as [v'|error].
        * exists [setTagsParsed v'; SetStateCall (SetIsInitialized true)].
          split; [reflexivity|]. split; [|right; left; reflexivity].
          intros c [<-|[<-|[]]].
          -- unfold setTagsParsed. destruct (asTags v');
               split; try reflexivity; discriminate.
          -- split; [reflexivity | discriminate].
        * exists [ConsoleErrorCall (js "Failed to load data from localStorage")
                                   error;
                  SetStateCall (SetIsInitialized true)].
          split; [reflexivity|]. split; [|right; left; reflexivity].
          intros c [<-|[<-|[]]]; (split; [reflexivity | discriminate]).
      + exists [SetStateCall (SetIsInitialized true)].
        split; [reflexivity|]. split; [|left; reflexivity].
        intros c [<-|[]]. split; [reflexivity | discriminate].
    - exists [SetStateCall (SetIsInitialized true)].
      split; [reflexivity|]. split; [|left; reflexivity].
      intros c [<-|[]]. split; [reflexivity | discriminate]. }
  destruct Hl as [rest [Hl [Hrest Hinit]]].
  exists rest. repeat split; try assumption.
  - apply Hrest; assumption.
  - apply Hrest; assumption.
  - unfold mount. rewrite Hl. reflexivity.
Qed.

(** At a store whose notes text is [null] and whose tags text is not JSON:
    the load effect sets the notes cell to [null], logs the failure of the
    tags text and marks initialization complete; the next render throws. *)
Example mount_null_notes :
  loadEffect Sample.notesTextNull
  = ([SetForeignCall NotesCell JNull;
      ConsoleErrorCall (js "Failed to load data from localStorage")
                       (js "SyntaxError");
      SetStateCall (SetIsInitialized true)], Done tt) /\
  mount Sample.notesTextNull = None /\
  filterOnForeign JNull = Some (js "TypeError").
Proof. repeat split. Qed.

(** X2: what the save effects write, the load effect of the next start
    reads back: with both serialized collections in the store, the application
    mounts with these collections. *)
Theorem mount_restores_saved (w : World) (l : list Note) (g : list Tag) :
  getItem w (js "notes_data") = Returned (Some (JSON_stringify_notes l)) ->
  getItem w (js "tags_data") = Returned (Some (JSON_stringify_tags g)) ->
  exists t, mount w = Some (mkState l g None None [] false true false, t).
Proof.
  intros Hn Ht.
  assert (Hl : loadEffect w
               = ([SetStateCall (SetNotes (fun _ => l));
                   SetStateCall (SetTags (fun _ => g));
                   SetStateCall (SetIsInitialized true)], Done tt)).
  { unfold loadEffect. rewrite Hn, Ht. cbn [lift bind ret app].
    change (truthy (JSON_stringify_notes l)) with true.
    change (truthy (JSON_stringify_tags g)) with true. cbv iota.
    rewrite JSON_parse_stringify_notes, JSON_parse_stringify_tags.
    cbn [lift bind ret app]. unfold setNotesParsed, setTagsParsed.
    rewrite asNotes_notesValue, asTags_tagsValue.
    reflexivity. }
  destruct (mount_loaded w Hl eq_refl) as [Hm _]. eexists. exact Hm.
Qed.

(** The theorem at a store that holds the five sample notes and the sample
    tag. *)
Lemma mount_restores_saved_witness :
  exists t,
    mount (mkWorld
             (fun key => if strictEq key (js "notes_data")
                         then Returned (Some (JSON_stringify_notes Sample.fiveNotes))
                         else Returned (Some (JSON_stringify_tags [Sample.work])))
             (fun _ _ => Returned tt))
    = Some (mkState Sample.fiveNotes [Sample.work] None None [] false true false,
            t).
Proof.
  apply (@mount_restores_saved
           (mkWorld
              (fun key => if strictEq key (js "notes_data")
                          then Returned (Some (JSON_stringify_notes Sample.fiveNotes))
                          else Returned (Some (JSON_stringify_tags [Sample.work])))
              (fun _ _ => Returned tt))
           Sample.fiveNotes [Sample.work]); reflexivity.
Defined.

(* ================================================================== *)
(** * Persistence after initialization *)
(* ================================================================== *)

(** In a trace that starts with a part without writes, whatever precedes a
    write contains that part. *)
Lemma write_after_prefix (t1 rest pre post : list Obs) (o : Obs) :
  (forall y, In y t1 -> isWrite y = false) ->
  isWrite o = true ->
  t1 ++ rest = pre ++ o :: post ->
  exists mid, pre = t1 ++ mid.
Proof.
  revert pre. induction t1 as [|y t1 IH]; intros pre Hno Ho E.
  - exists pre. reflexivity.
  - destruct pre as [|p pre].
    + cbn in E. injection E as E _. subst o.
      rewrite (Hno y (or_introl eq_refl)) in Ho. discriminate.
    + cbn in E. injection E as -> E.
      destruct (IH pre) as [mid ->]; try assumption.
      * intros z Hz. apply Hno. right; assumption.
      * exists mid. reflexivity.
Qed.

(** The trace of mounting starts with a part that has no write and contains
    the call that marks initialization complete. *)
Lemma mount_trace (w : World) (s : AppState) (t : list Obs) :
  mount w = Some (s, t) ->
  exists calls,
    loadEffect w = (calls, Done tt) /\
    s = commit calls initialState /\
    t = (Rendered initialState :: List.map Called calls)
        ++ Rendered s :: List.map Called (notesWrite w s ++ tagsWrite w s) /\
    In marksInitialized (Rendered initialState :: List.map Called calls) /\
    (forall y, In y (Rendered initialState :: List.map Called calls) ->
               isWrite y = false) /\
    isInitialized s = true.
Proof.
  intros Hm. destruct (loadEffect w) as [calls o] eqn:Hl.
  assert (Hc := loadEffect_calls w Hl). destruct Hc as [Hno [Hlast [_ ->]]].
  destruct (existsb setsForeign calls) eqn:Hf.
  - unfold mount in Hm. rewrite Hl in Hm.
    cbn [bind saveNotesEffect saveTagsEffect isInitialized initialState ret]
      in Hm.
    rewrite !app_nil_r, Hf in Hm. discriminate.
  - destruct (mount_loaded w Hl Hf) as [Hm' Hi]. rewrite Hm in Hm'.
    injection Hm' as -> ->. exists calls.
    repeat split; try assumption.
    + destruct (Hlast eq_refl) as [before ->]. right.
      rewrite map_app. apply in_or_app. right. left. reflexivity.
    + intros y [<-|Hy]; [reflexivity|].
      apply in_map_iff in Hy. destruct Hy as [c [<- Hc]].
      destruct c as [a|cell v|key text|m e]; try reflexivity.
      exfalso. exact (Hno key text Hc).
Qed.

Lemma reactAll_initialized (inputs : list (World * Event)) (s : AppState) :
  isInitialized s = true -> isInitialized (fst (reactAll inputs s)) = true.
Proof.
  revert s. induction inputs as [|[w e] inputs IH]; intros s Hs; [assumption|].
  cbn [reactAll]. assert (E := react_state w e s).
  destruct (react w e s) as [s1 t1]. cbn [fst] in E. subst s1.
  specialize (IH (dispatch e s)). rewrite isInitialized_dispatch in IH.
  specialize (IH Hs). destruct (reactAll inputs (dispatch e s)). exact IH.
Qed.

(** A note event calls [setNotes]; a change of the notes comes from one. *)
Lemma notes_changed_setsNotes (e : Event) (s : AppState) :
  notes (dispatch e s) <> notes s ->
  existsb setsNotes (List.map SetStateCall (handle s e)) = true.
Proof.
  intros H. destruct e; try reflexivity; try (exfalso; apply H; reflexivity).
Qed.

Lemma tags_changed_setsTags (e : Event) (s : AppState) :
  tags (dispatch e s) <> tags s ->
  existsb setsTags (List.map SetStateCall (handle s e)) = true.
Proof.
  intros H. destruct e; try reflexivity; try (exfalso; apply H; reflexivity).
  exfalso. apply H. unfold dispatch, handle, handleDeleteNote.
  destruct (strictEqNullable _ _); reflexivity.
Qed.

Lemma writeCalls_logged (w : World) (key text message key' text' error : jsstring) :
  In (SetItemCall key' text') (writeCalls w key text message) ->
  setItem w key' text' = Thrown error ->
  In (ConsoleErrorCall message error) (writeCalls w key text message).
Proof.
  unfold writeCalls. intros Hin Hthrow.
  assert (E : key' = key /\ text' = text).
  { destruct Hin as [E|Hin]; [injection E; auto|].
    destruct (setItem w key text); simpl in Hin; intuition discriminate. }
  destruct E as [-> ->]. rewrite Hthrow. right. left. reflexivity.
Qed.

Lemma writesOf_app (t1 t2 : list Obs) :
  writesOf (t1 ++ t2) = writesOf t1 ++ writesOf t2.
Proof. apply flat_map_app. Qed.

Lemma writesOf_SetStateCalls (actions : list SetStateAction) :
  writesOf (List.map Called (List.map SetStateCall actions)) = [].
Proof. induction actions as [|a l IH]; [reflexivity | exact IH]. Qed.

Lemma writesOf_writeCalls (w : World) (key text message : jsstring) :
  writesOf (List.map Called (writeCalls w key text message)) = [(key, text)].
Proof. unfold writeCalls. destruct (setItem w key text); reflexivity. Qed.

Lemma setsNotes_handle (s : AppState) (e : Event) :
  existsb setsNotes (List.map SetStateCall (handle s e)) = isNoteOp e.
Proof. destruct e; reflexivity. Qed.

Lemma setsTags_handle (s : AppState) (e : Event) :
  existsb setsTags (List.map SetStateCall (handle s e)) = isAddTag e.
Proof.
  destruct e; try reflexivity.
  unfold handle, handleDeleteNote.
  destruct (strictEqNullable _ _); reflexivity.
Qed.

Lemma tags_other (s : AppState) (e : Event) :
  isAddTag e = false -> tags (dispatch e s) = tags s.
Proof.
  destruct e; simpl; intros H; try discriminate; try reflexivity.
  unfold dispatch, handle, handleDeleteNote.
  destruct (strictEqNullable _ _); reflexivity.
Qed.

(** The calls of the effects that follow an event. *)
Lemma effects_of_event (w : World) (e : Event) (s : AppState) :
  fst (effectsAfter w (List.map SetStateCall (handle s e)) s (dispatch e s))
  = if isInitialized s
    then (if isNoteOp e then notesWrite w (dispatch e s) else [])
         ++ (if isAddTag e then tagsWrite w (dispatch e s) else [])
    else [].
Proof.
  assert (Hi := isInitialized_dispatch e s).
  destruct (isInitialized s) eqn:E.
  - rewrite effectsAfter_initialized by assumption. cbn [fst].
    rewrite setsNotes_handle, setsTags_handle, Hi, E. cbn [xorb].
    rewrite !orb_false_r. reflexivity.
  - rewrite effectsAfter_uninitialized by assumption. reflexivity.
Qed.

(** ** The gate *)

Lemma lastRender_app (t1 t2 : list Obs) :
  lastRender (t1 ++ t2)
  = match lastRender t2 with
    | Some s => Some s
    | None => lastRender t1
    end.
Proof.
  induction t1 as [|o t1 IH]; cbn [app lastRender].
  - destruct (lastRender t2); reflexivity.
  - rewrite IH. destruct (lastRender t2); reflexivity.
Qed.

Lemma lastRender_calls (calls : list Call) :
  lastRender (List.map Called calls) = None.
Proof.
  induction calls as [|c calls IH]; [reflexivity|].
  cbn [List.map lastRender]. rewrite IH. reflexivity.
Qed.

(** Traces whose writes are gated compose. *)
Lemma gatedAfter_app (t0 a b : list Obs) :
  gatedAfter t0 a -> gatedAfter (t0 ++ a) b -> gatedAfter t0 (a ++ b).
Proof.
  intros Ha Hb pre key text post E.
  apply app_eq_app in E. destruct E as [l [[E1 E2]|[E1 E2]]].
  - destruct l as [|o l].
    + cbn in E2. rewrite app_nil_r in E1. subst a.
      destruct (Hb [] key text post (eq_sym E2)) as [r Hr].
      rewrite app_nil_r in Hr. exists r. exact Hr.
    + cbn in E2. injection E2 as <- E2. subst a.
      exact (Ha pre key text l eq_refl).
  - subst pre. destruct (Hb l key text post E2) as [r Hr].
    exists r. rewrite app_assoc. exact Hr.
Qed.

(** Calls without a write, and a render, are gated. *)
Lemma gatedAfter_calls (t0 : list Obs) (calls : list Call) :
  (forall key text, ~ In (SetItemCall key text) calls) ->
  gatedAfter t0 (List.map Called calls).
Proof.
  intros Hno pre key text post E. exfalso. apply (Hno key text).
  assert (Hin : In (Called (SetItemCall key text)) (List.map Called calls)).
  { rewrite E. apply in_or_app. right. left. reflexivity. }
  apply in_map_iff in Hin. destruct Hin as [c [Ec Hc]].
  injection Ec as ->. exact Hc.
Qed.

Lemma gatedAfter_render (t0 : list Obs) (s : AppState) :
  gatedAfter t0 [Rendered s].
Proof.
  intros pre key text post E. destruct pre as [|o [|o' pre]]; discriminate.
Qed.

(** The calls of a save effect are gated after a trace whose last render is
    that of the initialized state they write. *)
Lemma gatedAfter_writeCalls (t0 : list Obs) (r : AppState) (w : World)
    (key text message : jsstring) :
  lastRender t0 = Some r -> isInitialized r = true ->
  writesCollection r key text ->
  gatedAfter t0 (List.map Called (writeCalls w key text message)).
Proof.
  intros Hl Hi Hw pre k x post E. unfold writeCalls in E.
  destruct pre as [|o pre].
  - cbn in E. injection E as <- <-. exists r. rewrite app_nil_r. auto.
  - exfalso. cbn in E. injection E as _ E.
    destruct (setItem w key text); destruct pre as [|o' [|o'' pre]];
      discriminate.
Qed.

(** So are the calls of the two save effects, each run or not. *)
Lemma gatedAfter_saves (t0 : list Obs) (r : AppState) (w : World)
    (saveNotes saveTags : bool) :
  lastRender t0 = Some r -> isInitialized r = true ->
  gatedAfter t0 (List.map Called
                   ((if saveNotes then notesWrite w r else [])
                    ++ (if saveTags then tagsWrite w r else []))).
Proof.
  intros Hl Hi. rewrite map_app. apply gatedAfter_app.
  - destruct saveNotes.
    + apply gatedAfter_writeCalls with (r := r); try assumption.
      left. split; reflexivity.
    + intros pre key text post E. destruct pre; discriminate.
  - assert (Hl' : lastRender
                    (t0 ++ List.map Called
                             (if saveNotes then notesWrite w r else []))
                  = Some r).
    { rewrite lastRender_app, lastRender_calls. exact Hl. }
    destruct saveTags.
    + apply gatedAfter_writeCalls with (r := r); try assumption.
      right. split; reflexivity.
    + intros pre key text post E. destruct pre; discriminate.
Qed.

(** The trace of an event in an initialized state is gated, and ends in the
    closure of the render of the state after the event. *)
Lemma react_gated (w : World) (e : Event) (s : AppState) (t0 : list Obs) :
  isInitialized s = true ->
  gatedAfter t0 (snd (react w e s)) /\
  lastRender (t0 ++ snd (react w e s)) = Some (dispatch e s).
Proof.
  intros Hi. rewrite react_trace, effects_of_event, Hi.
  assert (Hi' : isInitialized (dispatch e s) = true)
    by (rewrite isInitialized_dispatch; assumption).
  split.
  - apply gatedAfter_app.
    + apply gatedAfter_calls. intros key text Hin.
      apply in_map_iff in Hin. destruct Hin as [a [E _]]. discriminate.
    + change (Rendered (dispatch e s) :: ?l)
        with ([Rendered (dispatch e s)] ++ l).
      apply gatedAfter_app; [apply gatedAfter_render|].
      apply gatedAfter_saves; [|exact Hi'].
      rewrite lastRender_app. reflexivity.
  - rewrite !lastRender_app. cbn [lastRender].
    rewrite lastRender_calls. reflexivity.
Qed.

Lemma reactAll_cons (w : World) (e : Event) (rest : list (World * Event))
    (s : AppState) :
  reactAll ((w, e) :: rest) s
  = (fst (reactAll rest (dispatch e s)),
     snd (react w e s) ++ snd (reactAll rest (dispatch e s))).
Proof.
  cbn [reactAll]. assert (E := react_state w e s).
  destruct (react w e s) as [s1 t1]. cbn [fst snd] in *. subst s1.
  destruct (reactAll rest (dispatch e s)). reflexivity.
Qed.

Lemma reactAll_gated (inputs : list (World * Event)) (s : AppState)
    (t0 : list Obs) :
  isInitialized s = true ->
  gatedAfter t0 (snd (reactAll inputs s)).
Proof.
  revert s t0. induction inputs as [|[w e] inputs IH]; intros s t0 Hi.
  - intros pre key text post E. destruct pre; discriminate.
  - rewrite reactAll_cons. cbn [snd].
    destruct (@react_gated w e s t0 Hi) as [Hg _].
    apply gatedAfter_app; [exact Hg|].
    apply IH. rewrite isInitialized_dispatch. exact Hi.
Qed.

(** The trace of mounting is gated. *)
Lemma mount_gated (w : World) (s : AppState) (t : list Obs) :
  mount w = Some (s, t) -> gatedAfter [] t.
Proof.
  intros Hm.
  destruct (mount_trace w Hm) as [calls [Hl [_ [-> [_ [_ Hi]]]]]].
  destruct (loadEffect_calls w Hl) as [Hno _].
  apply gatedAfter_app.
  - change (Rendered initialState :: ?l) with ([Rendered initialState] ++ l).
    apply gatedAfter_app; [apply gatedAfter_render|].
    apply gatedAfter_calls. exact Hno.
  - change (Rendered s :: ?l) with ([Rendered s] ++ l).
    apply gatedAfter_app; [apply gatedAfter_render|].
    apply (@gatedAfter_saves _ s w true true); [|exact Hi].
    rewrite lastRender_app. reflexivity.
Qed.

Lemma writesOf_calls (calls : list Call) :
  (forall key text, ~ In (SetItemCall key text) calls) ->
  writesOf (List.map Called calls) = [].
Proof.
  induction calls as [|c calls IH]; intros H; [reflexivity|].
  cbn [List.map writesOf flat_map].
  fold (writesOf (List.map Called calls)). rewrite IH.
  - destruct c as [a|cell v|key text|m e]; try reflexivity.
    exfalso. apply (H key text). left; reflexivity.
  - intros key text Hin. apply (H key text). right; assumption.
Qed.

(** The writes of mounting: the two collections as loaded. *)
Lemma mount_writes (w : World) (s : AppState) (t : list Obs) :
  mount w = Some (s, t) ->
  writesOf t = [(js "notes_data", JSON_stringify_notes (notes s));
                (js "tags_data", JSON_stringify_tags (tags s))].
Proof.
  intros Hm.
  destruct (mount_trace w Hm) as [calls [Hl [_ [-> _]]]].
  destruct (loadEffect_calls w Hl) as [Hno _].
  rewrite writesOf_app. cbn [writesOf flat_map].
  fold (writesOf (List.map Called calls)).
  fold (writesOf (List.map Called (notesWrite w s ++ tagsWrite w s))).
  rewrite (@writesOf_calls calls Hno), map_app, writesOf_app.
  unfold notesWrite, tagsWrite. rewrite !writesOf_writeCalls. reflexivity.
Qed.

(** C7: in every run of the application no write to the store precedes the
    call that marks initialization complete; every write is made by an
    effect of a render in which initialization is complete (the last render
    before the write) and carries a whole collection of that render,
    serialized, under the key of that collection; and every run ends
    initialized.  Mounting writes exactly the two collections as loaded,
    logs a write the store refuses, and leads to the same state whatever the
    store answers to the writes.  An event in a state that is not
    initialized writes nothing.  Once
    initialized, an event that changes the notes (the tags) collection is
    followed by a write of the whole new collection, serialized, under its
    key; a write the store refuses is logged; and the state after an event
    is the one the handler made, however the store answers. *)
Theorem persistence_after_initialization :
  (forall w0 inputs s t, runApp w0 inputs = Some (s, t) ->
     (forall pre o post, t = pre ++ o :: post -> isWrite o = true ->
                         In marksInitialized pre) /\
     (forall pre key text post,
        t = pre ++ Called (SetItemCall key text) :: post ->
        exists r, lastRender pre = Some r /\
                  isInitialized r = true /\
                  writesCollection r key text) /\
     isInitialized s = true) /\
  (forall w s t, mount w = Some (s, t) ->
     writesOf t = [(js "notes_data", JSON_stringify_notes (notes s));
                   (js "tags_data", JSON_stringify_tags (tags s))] /\
     In (Called (SetItemCall (js "notes_data") (JSON_stringify_notes (notes s)))) t /\
     In (Called (SetItemCall (js "tags_data") (JSON_stringify_tags (tags s)))) t /\
     (forall key text error,
        In (Called (SetItemCall key text)) t ->
        setItem w key text = Thrown error ->
        exists message, In (Called (ConsoleErrorCall message error)) t) /\
     (forall answers,
        exists t', mount (mkWorld (getItem w) answers) = Some (s, t'))) /\
  (forall w e s, isInitialized s = false ->
     writesOf (snd (react w e s)) = []) /\
  (forall w e s, isInitialized s = true ->
     (notes (dispatch e s) <> notes s ->
      In (Called (SetItemCall (js "notes_data")
                    (JSON_stringify_notes (notes (dispatch e s)))))
         (snd (react w e s))) /\
     (tags (dispatch e s) <> tags s ->
      In (Called (SetItemCall (js "tags_data")
                    (JSON_stringify_tags (tags (dispatch e s)))))
         (snd (react w e s)))) /\
  (forall w e s key text error,
     In (Called (SetItemCall key text)) (snd (react w e s)) ->
     setItem w key text = Thrown error ->
     exists message, In (Called (ConsoleErrorCall message error))
                        (snd (react w e s))) /\
  (forall w e s, fst (react w e s) = dispatch e s).
Proof.
  split; [|split; [|split; [|split; [|split]]]].
  - intros w0 inputs s t Hr. unfold runApp in Hr.
    destruct (mount w0) as [[s0 t0]|] eqn:Hm; [|discriminate].
    assert (Hg0 := mount_gated w0 Hm).
    destruct (mount_trace w0 Hm) as [calls [_ [_ [Et [Hmark [Hno Hi]]]]]].
    assert (Hs := reactAll_initialized inputs s0 Hi).
    assert (Hg := @reactAll_gated inputs s0 ([] ++ t0) Hi).
    destruct (reactAll inputs s0) as [s' t']. injection Hr as <- <-.
    split; [|split; [|exact Hs]].
    + intros pre o post E Ho. rewrite Et, <- app_assoc in E.
      destruct (@write_after_prefix _ _ _ _ _ Hno Ho E) as [mid ->].
      apply in_or_app. left. exact Hmark.
    + intros pre key text post E.
      exact (@gatedAfter_app [] t0 t' Hg0 Hg pre key text post E).
  - intros w s t Hm. split; [exact (mount_writes w Hm)|].
    destruct (mount_trace w Hm) as [calls [Hl [Es [-> [_ [Hno _]]]]]].
    split; [|split; [|split]].
    + apply in_or_app; right; right; apply in_map, in_or_app.
      left. left. reflexivity.
    + apply in_or_app; right; right; apply in_map, in_or_app.
      right. left. reflexivity.
    + intros key text error Hin Hthrow.
      apply in_app_or in Hin. destruct Hin as [Hin|[Hin|Hin]].
      * apply Hno in Hin. discriminate.
      * discriminate.
      * apply in_map_iff in Hin. destruct Hin as [c [E Hc]].
        injection E as ->. apply in_app_or in Hc. destruct Hc as [Hc|Hc].
        -- exists (js "Failed to save notes to localStorage").
           apply in_or_app. right. right. apply in_map, in_or_app. left.
           eapply writeCalls_logged; eassumption.
        -- exists (js "Failed to save tags to localStorage").
           apply in_or_app. right. right. apply in_map, in_or_app. right.
           eapply writeCalls_logged; eassumption.
    + intros answers.
      assert (Hl' : loadEffect (mkWorld (getItem w) answers)
                    = (calls, Done tt)) by exact Hl.
      assert (Hf : existsb setsForeign calls = false).
      { destruct (existsb setsForeign calls) eqn:Hf; [|reflexivity].
        unfold mount in Hm. rewrite Hl in Hm.
        cbn [bind saveNotesEffect saveTagsEffect isInitialized initialState
             ret] in Hm.
        rewrite !app_nil_r, Hf in Hm. discriminate. }
      destruct (mount_loaded (mkWorld (getItem w) answers) Hl' Hf) as [Hm' _].
      rewrite <- Es in Hm'. eexists. exact Hm'.
  - intros w e s Hi.
    rewrite react_trace, writesOf_app, writesOf_SetStateCalls.
    rewrite effects_of_event, Hi. reflexivity.
  - intros w e s Hi.
    assert (Hi' : isInitialized (dispatch e s) = true)
      by (rewrite isInitialized_dispatch; assumption).
    rewrite react_trace, effectsAfter_initialized by assumption. cbn [fst].
    split; intros Hch.
    + rewrite (notes_changed_setsNotes e s Hch). cbn [orb].
      apply in_or_app. right. right. apply in_map, in_or_app.
      left. left. reflexivity.
    + rewrite (tags_changed_setsTags e s Hch). cbn [orb].
      apply in_or_app. right. right. apply in_map, in_or_app.
      right. left. reflexivity.
  - intros w e s key text error Hin Hthrow. rewrite react_trace in Hin |- *.
    apply in_app_or in Hin. destruct Hin as [Hin|[Hin|Hin]].
    + rewrite map_map in Hin. apply in_map_iff in Hin.
      destruct Hin as [a [E _]]. discriminate.
    + discriminate.
    + apply in_map_iff in Hin. destruct Hin as [c [E Hc]].
      injection E as ->.
      destruct (isInitialized (dispatch e s)) eqn:Hi.
      * rewrite effectsAfter_initialized in Hc |- * by assumption.
        cbn [fst] in Hc |- *. apply in_app_or in Hc.
        destruct Hc as [Hc|Hc].
        -- destruct (existsb setsNotes _ || _); [|contradiction].
           exists (js "Failed to save notes to localStorage").
           apply in_or_app. right. right. apply in_map, in_or_app. left.
           eapply writeCalls_logged; eassumption.
        -- destruct (existsb setsTags _ || _); [|contradiction].
           exists (js "Failed to save tags to localStorage").
           apply in_or_app. right. right. apply in_map, in_or_app. right.
           eapply writeCalls_logged; eassumption.
      * rewrite effectsAfter_uninitialized in Hc by assumption.
        contradiction.
  - apply react_state.
Qed.

(** Creating a note while the store refuses every write: the write of the
    new collection is attempted, the refusal is logged, and the new note is
    in the collection all the same. *)
Example react_write_refused :
  snd (react Sample.denied
             (AddNote (js "n6") (js "2024-03-06T08:00:00.000Z")
                      (js "2024-03-06T08:00:00.000Z"))
             Sample.loaded)
  = [Called (SetStateCall
       (SetNotes (fun prev =>
          Note.mk (js "n6") [] [] [] (js "2024-03-06T08:00:00.000Z")
                  (js "2024-03-06T08:00:00.000Z") :: prev)));
     Called (SetStateCall (SetActiveNoteId (Some (js "n6"))));
     Rendered (dispatch (AddNote (js "n6") (js "2024-03-06T08:00:00.000Z")
                                 (js "2024-03-06T08:00:00.000Z"))
                        Sample.loaded);
     Called (SetItemCall (js "notes_data")
               (JSON_stringify_notes
                  (Note.mk (js "n6") [] [] [] (js "2024-03-06T08:00:00.000Z")
                           (js "2024-03-06T08:00:00.000Z")
                   :: Sample.fiveNotes)));
     Called (ConsoleErrorCall (js "Failed to save notes to localStorage")
                              (js "QuotaExceededError"))] /\
  List.length (notes (fst (react Sample.denied
                             (AddNote (js "n6") (js "2024-03-06T08:00:00.000Z")
                                      (js "2024-03-06T08:00:00.000Z"))
                             Sample.loaded))) = 6.
Proof. split; reflexivity. Qed.

(** Mounting on an empty store: nothing is written before initialization is
    marked complete, and both (empty) collections are written after it. *)
Example mount_empty_store :
  option_map snd (mount (mkWorld (fun _ => Returned None)
                                 (fun _ _ => Returned tt)))
  = Some [Rendered initialState;
          Called (SetStateCall (SetIsInitialized true));
          Rendered (mkState [] [] None None [] false true false);
          Called (SetItemCall (js "notes_data") (js "[]"));
          Called (SetItemCall (js "tags_data") (js "[]"))].
Proof. reflexivity. Qed.

(* ================================================================== *)
(** * The view under filtering, deletion and creation *)
(* ================================================================== *)

Lemma filter_all (A : Type) (f : A -> bool) (l : list A) :
  (forall x, In x l -> f x = true) -> filter f l = l.
Proof.
  induction l as [|x l IH]; intros H; [reflexivity|].
  cbn [filter]. rewrite (H x (or_introl eq_refl)).
  f_equal. apply IH. intros y Hy. apply H. right; assumption.
Qed.

Lemma filter_filter_comm (A : Type) (f g : A -> bool) (l : list A) :
  filter f (filter g l) = filter g (filter f l).
Proof.
  induction l as [|x l IH]; [reflexivity|].
  cbn [filter]. destruct (f x) eqn:Ef, (g x) eqn:Eg; cbn [filter];
    rewrite ?Ef, ?Eg, IH; reflexivity.
Qed.

Lemma StronglySorted_filter (A : Type) (R : A -> A -> Prop) (f : A -> bool)
    (l : list A) :
  StronglySorted R l -> StronglySorted R (filter f l).
Proof.
  induction 1 as [|x l Hs IH Hx]; cbn [filter]; [constructor|].
  destruct (f x); [|assumption].
  constructor; [assumption|].
  rewrite Forall_forall in *. intros y Hy. apply Hx.
  apply filter_In in Hy. apply Hy.
Qed.

Section SortFilter.
Variable A : Type.
Variable comparefn : A -> A -> number.
Variable key : A -> Z.

Lemma descendingOn_filter (f : A -> bool) (l : list A) :
  descendingOn comparefn key l -> descendingOn comparefn key (filter f l).
Proof.
  intros H x y Hx Hy. apply filter_In in Hx, Hy. apply H; [apply Hx | apply Hy].
Qed.

(** Under a comparator that orders by a key, sorting what a filter keeps is
    filtering what the sort returns. *)
Lemma Array_sort_filter (f : A -> bool) (l : list A) :
  descendingOn comparefn key l ->
  filter f (Array_sort comparefn l) = Array_sort comparefn (filter f l).
Proof.
  intros Hd. apply Array_sort_unique with (key := key).
  - apply descendingOn_filter; assumption.
  - apply StronglySorted_filter. apply Array_sort_sorted; assumption.
  - intros k. rewrite filter_filter_comm.
    rewrite (Array_sort_stable k Hd). apply filter_filter_comm.
Qed.

End SortFilter.

Section ViewChanges.
Variable toLowerCase : jsstring -> jsstring.
Variable Date_getTime : jsstring -> number.

Local Abbreviation keep := (keepNote toLowerCase).
Local Abbreviation view := (filteredNotes toLowerCase Date_getTime).
Local Abbreviation time := (updatedTime Date_getTime).

Lemma keepNote_unfiltered (n : Note) : keep None [] n = true.
Proof using. reflexivity. Qed.

Lemma view_unfiltered (l : list Note) :
  view l None [] = Array_sort (byUpdatedAtDesc Date_getTime) l.
Proof using.
  unfold filteredNotes. rewrite filter_all; [reflexivity|].
  intros n _. apply keepNote_unfiltered.
Qed.

(** X3: whatever the timestamps are, the view holds exactly the visible
    notes of the collection, each as often as the collection does. *)
Theorem filteredNotes_exact (l : list Note) (activeTagId : option jsstring)
    (searchTerm : jsstring) :
  exists visibleNotes,
    Selects (fun n => tagMatches activeTagId n /\
                      searchMatches toLowerCase searchTerm n)
            l visibleNotes /\
    Permutation (view l activeTagId searchTerm) visibleNotes /\
    List.length (view l activeTagId searchTerm) = List.length visibleNotes.
Proof using.
  exists (filter (keep activeTagId searchTerm) l).
  split; [|split].
  - apply filter_Selects. intros n. apply keepNote_true_iff.
  - apply Array_sort_perm.
  - apply Permutation_length, Array_sort_perm.
Qed.

(** X4: when every [updatedAt] is a date, the view under a tag filter and a
    search term is the view of all notes with the notes that do not match
    left out: filtering and searching hide notes and never reorder the
    others. *)
Theorem filteredNotes_narrows (l : list Note) (activeTagId : option jsstring)
    (searchTerm : jsstring) :
  (forall n, In n l -> time n <> None) ->
  Selects (fun n => tagMatches activeTagId n /\
                    searchMatches toLowerCase searchTerm n)
          (view l None []) (view l activeTagId searchTerm).
Proof using.
  intros Hv. rewrite view_unfiltered. unfold filteredNotes.
  rewrite <- (Array_sort_filter (key := timeKey Date_getTime)).
  - apply filter_Selects. intros n. apply keepNote_true_iff.
  - apply byUpdatedAtDesc_descending. assumption.
Qed.

(** X5: when every [updatedAt] is a date, the view after a deletion is the
    view before it with the notes of the deleted identifier left out, the
    others in the order they had. *)
Theorem filteredNotes_after_delete (s : AppState) (noteId : jsstring) :
  (forall n, In n (notes s) -> time n <> None) ->
  Selects (fun n => Note.id n <> noteId)
          (view (notes s) (activeTagId s) (searchTerm s))
          (view (notes (dispatch (DeleteNote noteId) s))
                (activeTagId (dispatch (DeleteNote noteId) s))
                (searchTerm (dispatch (DeleteNote noteId) s))).
Proof using.
  intros Hv.
  assert (Et : activeTagId (dispatch (DeleteNote noteId) s) = activeTagId s).
  { unfold dispatch, handle, handleDeleteNote.
    destruct (strictEqNullable _ _); reflexivity. }
  assert (Es : searchTerm (dispatch (DeleteNote noteId) s) = searchTerm s).
  { unfold dispatch, handle, handleDeleteNote.
    destruct (strictEqNullable _ _); reflexivity. }
  rewrite Et, Es, notes_DeleteNote. unfold filteredNotes.
  rewrite filter_filter_comm.
  rewrite <- (@Array_sort_filter _ (byUpdatedAtDesc Date_getTime)
                (timeKey Date_getTime)
                (fun n => negb (strictEq (Note.id n) noteId))
                (filter (keep (activeTagId s) (searchTerm s)) (notes s))).
  - apply filter_Selects. intros n.
    rewrite negb_true_iff, <- not_true_iff_false, strictEq_true_iff.
    reflexivity.
  - apply byUpdatedAtDesc_descending.
    intros n Hn. apply filter_In in Hn. apply Hv, Hn.
Qed.

(** The new note passes the tag filter it was created under. *)
Lemma keepNote_newNote (s : AppState) (uuid createdNow updatedNow : jsstring) :
  keep (activeTagId s) [] (newNote s uuid createdNow updatedNow) = true.
Proof using.
  unfold keepNote, newNote. cbn [Note.tags truthy andb].
  destruct (activeTagId s) as [[|c t]|]; cbn [truthyNullable truthy andb];
    try reflexivity.
  unfold Array_includes. cbn [existsb].
  rewrite (proj2 (strictEq_true_iff (c :: t) (c :: t)) eq_refl). reflexivity.
Qed.

(** X6: with an empty search term, a note created at a time that is not
    earlier than the [updatedAt] of any note is the first of the view, under
    whatever tag filter is active, and the view continues as it was. *)
Theorem filteredNotes_after_add (s : AppState)
    (uuid createdNow updatedNow : jsstring) (now : Z) :
  searchTerm s = [] ->
  Date_getTime updatedNow = Some now ->
  (forall n, In n (notes s) -> exists t, time n = Some t /\ (t <= now)%Z) ->
  view (notes (dispatch (AddNote uuid createdNow updatedNow) s))
       (activeTagId (dispatch (AddNote uuid createdNow updatedNow) s))
       (searchTerm (dispatch (AddNote uuid createdNow updatedNow) s))
  = newNote s uuid createdNow updatedNow
    :: view (notes s) (activeTagId s) (searchTerm s).
Proof using.
  intros Hs Hnow Hold. rewrite notes_AddNote.
  change (activeTagId (dispatch (AddNote uuid createdNow updatedNow) s))
    with (activeTagId s).
  change (searchTerm (dispatch (AddNote uuid createdNow updatedNow) s))
    with (searchTerm s).
  rewrite Hs. unfold filteredNotes. cbn [filter].
  rewrite keepNote_newNote. cbn [Array_sort].
  assert (Hin : forall n,
             In n (Array_sort (byUpdatedAtDesc Date_getTime)
                     (filter (keep (activeTagId s) []) (notes s))) ->
             exists t, time n = Some t /\ (t <= now)%Z).
  { intros n Hn. apply Array_sort_In in Hn. apply filter_In in Hn.
    apply Hold, Hn. }
  destruct (Array_sort (byUpdatedAtDesc Date_getTime)
              (filter (keep (activeTagId s) []) (notes s))) as [|y rest];
    [reflexivity|].
  cbn [sortInsert].
  destruct (Hin y (or_introl eq_refl)) as [t [Et Hle]].
  unfold SortCompare, byUpdatedAtDesc, updatedTime in *.
  cbn [newNote Note.updatedAt]. rewrite Et, Hnow. cbn [minus].
  destruct (Z.leb_spec (t - now) 0); [reflexivity | lia].
Qed.

End ViewChanges.

(** The theorem at the five sample notes, the tag [t1] and the search term
    [meeting]. *)
Lemma filteredNotes_narrows_witness :
  Selects (fun n => tagMatches (Some (js "t1")) n /\
                    searchMatches asciiToLowerCase (js "meeting") n)
          (filteredNotes asciiToLowerCase isoGetTime Sample.fiveNotes None [])
          (filteredNotes asciiToLowerCase isoGetTime Sample.fiveNotes
                         (Some (js "t1")) (js "meeting")).
Proof.
  apply (@filteredNotes_narrows asciiToLowerCase isoGetTime Sample.fiveNotes
           (Some (js "t1")) (js "meeting")).
  intros n Hn. unfold Sample.fiveNotes in Hn. simpl in Hn.
  repeat (destruct Hn as [<-|Hn]; [vm_compute; discriminate|]).
  contradiction.
Defined.

(** The theorem at the deletion of the second sample note. *)
Lemma filteredNotes_after_delete_witness :
  Selects (fun n => Note.id n <> js "n2")
          (filteredNotes asciiToLowerCase isoGetTime (notes Sample.loaded)
                         (activeTagId Sample.loaded) (searchTerm Sample.loaded))
          (filteredNotes asciiToLowerCase isoGetTime
             (notes (dispatch (DeleteNote (js "n2")) Sample.loaded))
             (activeTagId (dispatch (DeleteNote (js "n2")) Sample.loaded))
             (searchTerm (dispatch (DeleteNote (js "n2")) Sample.loaded))).
Proof.
  apply (@filteredNotes_after_delete asciiToLowerCase isoGetTime Sample.loaded
           (js "n2")).
  intros n Hn. unfold Sample.loaded, Sample.fiveNotes in Hn. simpl in Hn.
  repeat (destruct Hn as [<-|Hn]; [vm_compute; discriminate|]).
  contradiction.
Defined.

(** The theorem at the creation of a sixth note, later than the five. *)
Lemma filteredNotes_after_add_witness :
  filteredNotes asciiToLowerCase isoGetTime
    (notes (dispatch (AddNote (js "n6") (js "2024-03-06T08:00:00.000Z")
                              (js "2024-03-06T08:00:00.000Z")) Sample.loaded))
    (activeTagId (dispatch (AddNote (js "n6") (js "2024-03-06T08:00:00.000Z")
                                    (js "2024-03-06T08:00:00.000Z"))
                           Sample.loaded))
    (searchTerm (dispatch (AddNote (js "n6") (js "2024-03-06T08:00:00.000Z")
                                   (js "2024-03-06T08:00:00.000Z"))
                          Sample.loaded))
  = newNote Sample.loaded (js "n6") (js "2024-03-06T08:00:00.000Z")
            (js "2024-03-06T08:00:00.000Z")
    :: filteredNotes asciiToLowerCase isoGetTime (notes Sample.loaded)
         (activeTagId Sample.loaded) (searchTerm Sample.loaded).
Proof.
  apply (@filteredNotes_after_add asciiToLowerCase isoGetTime Sample.loaded
           (js "n6") (js "2024-03-06T08:00:00.000Z")
           (js "2024-03-06T08:00:00.000Z") 1709712000000%Z).
  - reflexivity.
  - vm_compute. reflexivity.
  - intros n Hn. unfold Sample.loaded, Sample.fiveNotes in Hn. simpl in Hn.
    repeat (destruct Hn as [<-|Hn];
            [eexists; split; [vm_compute; reflexivity | vm_compute; discriminate]|]).
    contradiction.
Defined.

(* ================================================================== *)
(** * The note the editor shows, and what reaches the children *)
(* ================================================================== *)

Lemma activeNote_Some (s : AppState) (n : Note) :
  activeNote s = Some n -> In n (notes s) /\ activeNoteId s = Some (Note.id n).
Proof.
  unfold activeNote. intros H. apply find_some in H. destruct H as [Hin Hp].
  apply strictEqNullable_true_iff in Hp. auto.
Qed.

Lemma activeNote_None (s : AppState) :
  activeNote s = None ->
  forall n, In n (notes s) -> activeNoteId s <> Some (Note.id n).
Proof.
  unfold activeNote. intros H n Hn E.
  assert (Hf := find_none _ _ H n Hn). cbv beta in Hf.
  rewrite (proj2 (strictEqNullable_true_iff _ _) (eq_sym E)) in Hf.
  discriminate.
Qed.

Lemma find_id_map_same (a : option jsstring) (u n : Note) (l : list Note) :
  find (fun x => strictEqNullable (Some (Note.id x)) a) l = Some n ->
  Note.id u = Note.id n ->
  find (fun x => strictEqNullable (Some (Note.id x)) a)
       (List.map (fun x => if strictEq (Note.id x) (Note.id u) then u else x) l)
  = Some u.
Proof.
  intros Hf Eu. induction l as [|x l IH]; [discriminate|].
  cbn [find List.map] in *.
  destruct (strictEqNullable (Some (Note.id x)) a) eqn:Ex.
  - injection Hf as ->. rewrite Eu.
    rewrite (proj2 (strictEq_true_iff _ _) eq_refl). rewrite Eu, Ex.
    reflexivity.
  - destruct (strictEq (Note.id x) (Note.id u)) eqn:Exu.
    + apply strictEq_true_iff in Exu.
      assert (Hu : strictEqNullable (Some (Note.id u)) a = false)
        by (rewrite <- Exu; exact Ex).
      rewrite Hu. apply IH, Hf.
    + rewrite Ex. apply IH, Hf.
Qed.

Lemma find_id_map_other (a : option jsstring) (u : Note) (l : list Note) :
  a <> Some (Note.id u) ->
  find (fun x => strictEqNullable (Some (Note.id x)) a)
       (List.map (fun x => if strictEq (Note.id x) (Note.id u) then u else x) l)
  = find (fun x => strictEqNullable (Some (Note.id x)) a) l.
Proof.
  intros Ha.
  assert (Hu : strictEqNullable (Some (Note.id u)) a = false).
  { apply not_true_iff_false. intros E.
    apply strictEqNullable_true_iff in E. congruence. }
  induction l as [|x l IH]; [reflexivity|]. cbn [find List.map].
  destruct (strictEq (Note.id x) (Note.id u)) eqn:Exu.
  - apply strictEq_true_iff in Exu. rewrite Hu, Exu, Hu. apply IH.
  - rewrite IH. reflexivity.
Qed.

Lemma find_id_filter_other (a : option jsstring) (noteId : jsstring)
    (l : list Note) :
  a <> Some noteId ->
  find (fun x => strictEqNullable (Some (Note.id x)) a)
       (filter (fun x => negb (strictEq (Note.id x) noteId)) l)
  = find (fun x => strictEqNullable (Some (Note.id x)) a) l.
Proof.
  intros Ha. induction l as [|x l IH]; [reflexivity|]. cbn [find filter].
  destruct (strictEq (Note.id x) noteId) eqn:Ex; cbn [negb find].
  - apply strictEq_true_iff in Ex.
    assert (Hx : strictEqNullable (Some (Note.id x)) a = false).
    { apply not_true_iff_false. intros E.
      apply strictEqNullable_true_iff in E. congruence. }
    rewrite Hx. apply IH.
  - rewrite IH. reflexivity.
Qed.

(** X7: the note the editor shows follows the edits.  Saving a record with
    the identifier of the shown note makes the editor show that record;
    saving a record with another identifier, or deleting a note with another
    identifier, leaves the shown note as it is; deleting the shown note's
    identifier leaves no note shown. *)
Theorem activeNote_follows_edits (s : AppState) :
  (forall u n, activeNote s = Some n -> Note.id u = Note.id n ->
     activeNote (dispatch (SaveNote u) s) = Some u) /\
  (forall u, activeNoteId s <> Some (Note.id u) ->
     activeNote (dispatch (SaveNote u) s) = activeNote s) /\
  (forall noteId, activeNoteId s = Some noteId ->
     activeNote (dispatch (DeleteNote noteId) s) = None) /\
  (forall noteId, activeNoteId s <> Some noteId ->
     activeNote (dispatch (DeleteNote noteId) s) = activeNote s).
Proof.
  split; [|split; [|split]].
  - intros u n Hn Eu. unfold activeNote in *. rewrite notes_SaveNote.
    change (activeNoteId (dispatch (SaveNote u) s)) with (activeNoteId s).
    apply find_id_map_same with n; assumption.
  - intros u Ha. unfold activeNote. rewrite notes_SaveNote.
    change (activeNoteId (dispatch (SaveNote u) s)) with (activeNoteId s).
    apply find_id_map_other; assumption.
  - intros noteId Ha.
    assert (E : activeNoteId (dispatch (DeleteNote noteId) s) = None).
    { unfold dispatch, handle, handleDeleteNote.
      rewrite (proj2 (strictEqNullable_true_iff _ _) Ha). reflexivity. }
    unfold activeNote. rewrite E.
    induction (notes (dispatch (DeleteNote noteId) s)) as [|x l IH];
      [reflexivity | exact IH].
  - intros noteId Ha.
    assert (E : activeNoteId (dispatch (DeleteNote noteId) s) = activeNoteId s).
    { unfold dispatch, handle, handleDeleteNote.
      destruct (strictEqNullable (activeNoteId s) (Some noteId)) eqn:E';
        [|reflexivity].
      apply strictEqNullable_true_iff in E'. contradiction. }
    unfold activeNote. rewrite E, notes_DeleteNote.
    apply find_id_filter_other; assumption.
Qed.

(** The editor is open on the first sample note: saving an edit of it shows
    the edit, and deleting the second note keeps the first shown. *)
Example activeNote_follows_edits_example :
  activeNote (dispatch (SaveNote (Note.mk (js "n1") (js "Meeting") (js "done")
                                    [] (js "2024-03-01T09:00:00.000Z")
                                    (js "2024-03-07T09:00:00.000Z")))
                (mkState Sample.fiveNotes [] (Some (js "n1")) None []
                         false true false))
  = Some (Note.mk (js "n1") (js "Meeting") (js "done") []
                  (js "2024-03-01T09:00:00.000Z")
                  (js "2024-03-07T09:00:00.000Z")) /\
  activeNote (dispatch (DeleteNote (js "n2"))
                (mkState Sample.fiveNotes [] (Some (js "n1")) None []
                         false true false))
  = Some Sample.meeting.
Proof. split; reflexivity. Qed.

Section RenderFacts.
Variable toLowerCase : jsstring -> jsstring.
Variable Date_getTime : jsstring -> number.

Local Abbreviation render := (render toLowerCase Date_getTime).

(** X8: every note a child receives (the list's notes, the editor's note,
    the modal's notes) is a note of the collection; after a deletion no
    child receives a note of the deleted identifier. *)
Theorem render_hands_down_notes (s : AppState) :
  (forall n, In n (notesHandedDown (render s)) -> In n (notes s)) /\
  (forall noteId n,
     In n (notesHandedDown (render (dispatch (DeleteNote noteId) s))) ->
     Note.id n <> noteId).
Proof using.
  assert (H : forall s' n, In n (notesHandedDown (render s')) -> In n (notes s')).
  { intros s' n. unfold render.
    destruct (isInitialized s'); cbn [negb notesHandedDown]; [|contradiction].
    intros Hin. apply in_app_or in Hin. destruct Hin as [Hin|Hin]; [|exact Hin].
    destruct (activeNote s') as [m|] eqn:Ea.
    - cbn in Hin. destruct Hin as [<-|[]]. apply activeNote_Some, Ea.
    - cbn in Hin. apply filteredNotes_In in Hin. apply Hin. }
  split; [apply H|].
  intros noteId n Hin. apply H in Hin. rewrite notes_DeleteNote in Hin.
  apply filter_In in Hin. destruct Hin as [_ Hid].
  rewrite negb_true_iff, <- not_true_iff_false, strictEq_true_iff in Hid.
  exact Hid.
Qed.

(** X9: a run that mounts never ends on the loading text.  The editor is
    open exactly when the active identifier is that of a note of the
    collection, and then on the first note with that identifier; otherwise
    the list is shown with the filtered and sorted view. *)
Theorem render_after_mount (w0 : World) (inputs : list (World * Event))
    (s : AppState) (t : list Obs) :
  runApp w0 inputs = Some (s, t) ->
  exists main,
    render s = Shown (Sidebar.mk (tags s) (activeTagId s) (isSidebarOpen s))
                     main
                     (AskGeminiModal.mk (isAskGeminiModalOpen s) (notes s)) /\
    ((exists n, main = EditorView (NoteEditor.mk n (tags s)) /\
                In n (notes s) /\ activeNoteId s = Some (Note.id n)) \/
     (main = ListView (NoteList.mk
                         (filteredNotes toLowerCase Date_getTime (notes s)
                                        (activeTagId s) (searchTerm s))
                         (tags s) (searchTerm s)) /\
      forall n, In n (notes s) -> activeNoteId s <> Some (Note.id n))).
Proof using.
  intros Hr. unfold runApp in Hr.
  destruct (mount w0) as [[s0 t0]|] eqn:Hm; [|discriminate].
  destruct (mount_trace w0 Hm) as [calls [_ [_ [_ [_ [_ Hi]]]]]].
  assert (Hs := reactAll_initialized inputs s0 Hi).
  destruct (reactAll inputs s0) as [s' t']. injection Hr as <- <-.
  cbn [fst] in Hs. unfold render. rewrite Hs. cbn [negb].
  eexists. split; [reflexivity|].
  destruct (activeNote s') as [n|] eqn:Ea.
  - left. exists n. split; [reflexivity|]. apply activeNote_Some, Ea.
  - right. split; [reflexivity|]. apply activeNote_None, Ea.
Qed.

End RenderFacts.

(* ================================================================== *)
(** * What is written to the store, and when *)
(* ================================================================== *)

(** X10: which writes an event causes.  In an initialized state a note
    creation, save or deletion writes the whole new notes collection under
    [notes_data] and nothing else, even when the save matched no note; a tag
    creation writes the whole new tags collection under [tags_data] and
    nothing else; every other event writes nothing and leaves both
    collections as they are. *)
Theorem react_writes (w : World) (e : Event) (s : AppState) :
  writesOf (snd (react w e s))
  = (if isInitialized s
     then (if isNoteOp e
           then [(js "notes_data", JSON_stringify_notes (notes (dispatch e s)))]
           else [])
          ++ (if isAddTag e
              then [(js "tags_data", JSON_stringify_tags (tags (dispatch e s)))]
              else [])
     else []) /\
  (isNoteOp e = false -> notes (dispatch e s) = notes s) /\
  (isAddTag e = false -> tags (dispatch e s) = tags s).
Proof.
  split; [|split; [apply notes_other | apply tags_other]].
  rewrite react_trace, writesOf_app, writesOf_SetStateCalls.
  cbn [app writesOf flat_map]. fold (writesOf (List.map Called
    (fst (effectsAfter w (List.map SetStateCall (handle s e)) s (dispatch e s))))).
  rewrite effects_of_event.
  destruct (isInitialized s); [|reflexivity].
  rewrite map_app, writesOf_app.
  destruct (isNoteOp e), (isAddTag e); unfold notesWrite, tagsWrite;
    rewrite ?writesOf_writeCalls; reflexivity.
Qed.

(** A save that matches no note still writes the (unchanged) collection; a
    change of the search term writes nothing. *)
Example react_writes_example :
  writesOf (snd (react Sample.notesTextBroken
                   (SaveNote (Note.mk (js "n9") [] [] [] [] []))
                   Sample.loaded))
  = [(js "notes_data", JSON_stringify_notes Sample.fiveNotes)] /\
  writesOf (snd (react Sample.notesTextBroken (SearchChange (js "milk"))
                   Sample.loaded))
  = [].
Proof. split; reflexivity. Qed.




Lemma lastWrite_calls (key : jsstring) (calls : list Call) :
  (forall k text, ~ In (SetItemCall k text) calls) ->
  lastWrite key (List.map Called calls) = None.
Proof.
  induction calls as [|c calls IH]; intros H; [reflexivity|].
  cbn [List.map lastWrite]. rewrite IH.
  - destruct c as [a|cell v|k text|m e]; try reflexivity.
    exfalso. apply (H k text). left; reflexivity.
  - intros k text Hin. apply (H k text). right; assumption.
Qed.





(** X12: a first start.  When under each key nothing is stored, or the empty
    text is, the application mounts with both collections empty without
    logging a load failure (the empty text is not handed to [JSON.parse]),
    and then writes the text of the empty array under both keys. *)
Theorem mount_nothing_stored (w : World) :
  (getItem w (js "notes_data") = Returned None \/
   getItem w (js "notes_data") = Returned (Some [])) ->
  (getItem w (js "tags_data") = Returned None \/
   getItem w (js "tags_data") = Returned (Some [])) ->
  exists t,
    mount w = Some (mkState [] [] None None [] false true false, t) /\
    existsb isLoadError t = false /\
    writesOf t = [(js "notes_data", js "[]"); (js "tags_data", js "[]")].
Proof.
  intros Hn Ht.
  assert (Hl : loadEffect w
               = ([SetStateCall (SetIsInitialized true)], Done tt)).
  { unfold loadEffect.
    destruct Hn as [-> | ->], Ht as [-> | ->]; reflexivity. }
  destruct (mount_loaded w Hl eq_refl) as [Hm _].
  eexists. split; [exact Hm|]. split.
  - cbn [commit fold_left applyAction List.map app existsb isLoadError orb].
    unfold notesWrite, tagsWrite, writeCalls.
    destruct (setItem w (js "notes_data") _), (setItem w (js "tags_data") _);
      reflexivity.
  - cbn [List.map app writesOf flat_map].
    fold (writesOf (List.map Called
            (notesWrite w (commit [SetStateCall (SetIsInitialized true)]
                                  initialState)
             ++ tagsWrite w (commit [SetStateCall (SetIsInitialized true)]
                                    initialState)))).
    rewrite map_app, writesOf_app. unfold notesWrite, tagsWrite.
    rewrite !writesOf_writeCalls. reflexivity.
Qed.

(** The theorem at a store that holds the empty text under [notes_data] and
    nothing under [tags_data], and refuses writes. *)
Lemma mount_nothing_stored_witness :
  exists t,
    mount (mkWorld (fun key => if strictEq key (js "notes_data")
                               then Returned (Some []) else Returned None)
                   (fun _ _ => Thrown (js "QuotaExceededError")))
    = Some (mkState [] [] None None [] false true false, t) /\
    existsb isLoadError t = false /\
    writesOf t = [(js "notes_data", js "[]"); (js "tags_data", js "[]")].
Proof.
  apply (@mount_nothing_stored
           (mkWorld (fun key => if strictEq key (js "notes_data")
                                then Returned (Some []) else Returned None)
                    (fun _ _ => Thrown (js "QuotaExceededError")))).
  - right. reflexivity.
  - left. reflexivity.
Defined.

(* ================================================================== *)
(** * Tags over a session *)
(* ================================================================== *)

Lemma tagIds_AddTag (s : AppState) (uuid tagName : jsstring) :
  tagIds (dispatch (AddTag uuid tagName) s) = tagIds s ++ [uuid].
Proof. unfold tagIds. cbn. apply map_app. Qed.

Lemma tagIds_other (s : AppState) (e : Event) :
  isAddTag e = false -> tagIds (dispatch e s) = tagIds s.
Proof. intros H. unfold tagIds. rewrite tags_other by assumption. reflexivity. Qed.



Lemma refsValid_dispatch (s : AppState) (e : Event) :
  refsValid s -> passesKnownTags s e -> refsValid (dispatch e s).
Proof.
  intros [Hnotes Hactive] Hp.
  destruct e as [uuid c u|u|noteId|uuid tagName|tagId|noteId|term|o|o].
  - split; [|exact Hactive].
    intros n t Hn Ht. rewrite notes_AddNote in Hn.
    destruct Hn as [<-|Hn]; [|exact (Hnotes n t Hn Ht)].
    unfold newNote in Ht. cbn [Note.tags] in Ht.
    destruct (activeTagId s) as [[|c0 t0]|] eqn:Ea; cbn [truthy] in Ht;
      try contradiction.
    destruct Ht as [<-|[]]. change (tagIds (dispatch (AddNote uuid c u) s))
      with (tagIds s). apply Hactive. reflexivity.
  - split; [|exact Hactive].
    intros n t Hn Ht. rewrite notes_SaveNote in Hn.
    apply in_map_iff in Hn. destruct Hn as [x [Ex Hx]].
    change (tagIds (dispatch (SaveNote u) s)) with (tagIds s).
    destruct (strictEq (Note.id x) (Note.id u)); subst n.
    + apply Hp, Ht.
    + exact (Hnotes x t Hx Ht).
  - assert (Et : tagIds (dispatch (DeleteNote noteId) s) = tagIds s)
      by (apply tagIds_other; reflexivity).
    split; rewrite Et.
    + intros n t Hn Ht. rewrite notes_DeleteNote in Hn.
      apply filter_In in Hn. exact (Hnotes n t (proj1 Hn) Ht).
    + intros c t Ha. apply Hactive. rewrite <- Ha.
      unfold dispatch, handle, handleDeleteNote.
      destruct (strictEqNullable _ _); reflexivity.
  - split; rewrite tagIds_AddTag.
    + intros n t Hn Ht. apply in_or_app. left. exact (Hnotes n t Hn Ht).
    + intros c t Ha. apply in_or_app. left. apply Hactive. exact Ha.
  - split; [exact Hnotes|].
    intros c t Ha. cbn in Ha. subst tagId. exact Hp.
  - split; assumption.
  - split; assumption.
  - split; assumption.
  - split; assumption.
Qed.

(** X14: tag references stay valid.  When every tag identifier in a note,
    and the active tag filter if it is not empty, is the identifier of a
    tag, this stays so over any sequence of events in which the children
    hand in only identifiers of tags (as the tags of a saved note, or as the
    tag selected): the component itself never introduces a reference to a
    tag that does not exist, and never removes a tag. *)
Theorem refsValid_preserved (events : list Event) (s : AppState) :
  refsValid s ->
  allPassKnownTags s events ->
  refsValid (dispatchAll events s).
Proof.
  revert s. induction events as [|e events IH]; intros s Hv Hp; [exact Hv|].
  destruct Hp as [He Hp]. cbn [dispatchAll fold_left].
  apply IH; [apply refsValid_dispatch; assumption | exact Hp].
Qed.

(** The theorem along the selection of a tag, the creation of a note under
    it, the creation of a second tag and a save that adds it to the note. *)
Lemma refsValid_preserved_witness :
  refsValid
    (dispatchAll
       [SelectTag (Some (js "t1"));
        AddNote (js "n6") (js "2024-03-06T08:00:00.000Z")
                (js "2024-03-06T08:00:00.000Z");
        AddTag (js "t2") (js "home");
        SaveNote (Note.mk (js "n6") (js "Trip") [] [js "t1"; js "t2"]
                          (js "2024-03-06T08:00:00.000Z")
                          (js "2024-03-06T08:05:00.000Z"))]
       (mkState [Sample.meeting] [Sample.work] None None [] false true false)).
Proof.
  apply (@refsValid_preserved
           [SelectTag (Some (js "t1"));
            AddNote (js "n6") (js "2024-03-06T08:00:00.000Z")
                    (js "2024-03-06T08:00:00.000Z");
            AddTag (js "t2") (js "home");
            SaveNote (Note.mk (js "n6") (js "Trip") [] [js "t1"; js "t2"]
                              (js "2024-03-06T08:00:00.000Z")
                              (js "2024-03-06T08:05:00.000Z"))]
           (mkState [Sample.meeting] [Sample.work] None None [] false true
                    false)).
  - split.
    + intros n t [<-|[]] [<-|[]]. left. reflexivity.
    + intros c t H. discriminate H.
  - simpl. repeat split.
    + left. reflexivity.
    + intros t [<-|[<-|[]]]; [left | right; left]; reflexivity.
Defined.

(* ================================================================== *)
(** * The view after a save *)
(* ================================================================== *)

Section ViewAfterSave.
Variable toLowerCase : jsstring -> jsstring.
Variable Date_getTime : jsstring -> number.
Variable u : Note.

Local Abbreviation view := (filteredNotes toLowerCase Date_getTime).
Local Abbreviation time := (updatedTime Date_getTime).
Local Abbreviation tkey := (timeKey Date_getTime).
Local Abbreviation replace :=
  (fun n : Note => if strictEq (Note.id n) (Note.id u) then u else n).
Local Abbreviation others :=
  (fun n : Note => negb (strictEq (Note.id n) (Note.id u))).

Lemma others_true_iff (n : Note) :
  others n = true <-> Note.id n <> Note.id u.
Proof using.
  rewrite negb_true_iff, <- not_true_iff_false, strictEq_true_iff.
  reflexivity.
Qed.

Lemma replace_absent (l : list Note) :
  (forall x, In x l -> Note.id x <> Note.id u) -> List.map replace l = l.
Proof using.
  intros H. rewrite <- (map_id l) at 2. apply map_ext_in. intros x Hx.
  destruct (strictEq (Note.id x) (Note.id u)) eqn:E; [|reflexivity].
  apply strictEq_true_iff in E. exfalso. exact (H x Hx E).
Qed.

(** The notes of one key after the replacement: the saved record if it has
    the key, and the notes of that key with another identifier. *)
Lemma filter_key_replace (f : Note -> bool) (k : Z) (l : list Note) :
  NoDup (List.map Note.id l) ->
  In (Note.id u) (List.map Note.id l) ->
  (forall x, In x l -> Note.id x <> Note.id u -> (tkey x < tkey u)%Z) ->
  f u = true ->
  filter (keyIs tkey k) (filter f (List.map replace l))
  = (if keyIs tkey k u then [u] else [])
    ++ filter others (filter (keyIs tkey k) (filter f l)).
Proof using.
  intros Hnd Hin Hlt Hf. induction l as [|x l IH]; [contradiction|].
  cbn [List.map] in Hnd, Hin. inversion Hnd as [|i ids Hx Hnd']; subst.
  cbn [List.map].
  destruct (strictEq (Note.id x) (Note.id u)) eqn:E.
  - apply strictEq_true_iff in E.
    assert (Habs : forall y, In y l -> Note.id y <> Note.id u).
    { intros y Hy Ey. apply Hx. rewrite E, <- Ey. apply in_map. assumption. }
    rewrite replace_absent by assumption.
    assert (Erest : filter others (filter (keyIs tkey k) (filter f (x :: l)))
                    = filter (keyIs tkey k) (filter f l)).
    { assert (Hox : others x = false).
      { apply not_true_iff_false. intros H. apply others_true_iff in H.
        contradiction. }
      assert (Hall : filter others (filter (keyIs tkey k) (filter f l))
                     = filter (keyIs tkey k) (filter f l)).
      { apply filter_all. intros y Hy. apply others_true_iff.
        apply filter_In in Hy. destruct Hy as [Hy _].
        apply filter_In in Hy. apply Habs, Hy. }
      cbn [filter]. destruct (f x); cbn [filter]; [|exact Hall].
      destruct (keyIs tkey k x); cbn [filter]; [|exact Hall].
      rewrite Hox. exact Hall. }
    rewrite Erest. cbn [filter]. rewrite Hf. cbn [filter].
    destruct (keyIs tkey k u); reflexivity.
  - assert (Ex : Note.id x <> Note.id u).
    { intros H. apply strictEq_true_iff in H. congruence. }
    assert (Hin' : In (Note.id u) (List.map Note.id l)).
    { destruct Hin as [H|H]; [congruence | exact H]. }
    assert (IH' := IH Hnd' Hin'
                     (fun y Hy => Hlt y (or_intror Hy))).
    assert (Hox : others x = true) by (apply others_true_iff; exact Ex).
    cbn [filter]. destruct (f x); cbn [filter]; [|exact IH'].
    destruct (keyIs tkey k x) eqn:Ek; cbn [filter]; [|exact IH'].
    rewrite Hox, IH'.
    assert (Eu : keyIs tkey k u = false).
    { unfold keyIs in *. apply Z.eqb_eq in Ek. apply Z.eqb_neq.
      assert (H := Hlt x (or_introl eq_refl) Ex). lia. }
    rewrite Eu. reflexivity.
Qed.

(** X15: the note saved last comes first.  When the identifiers are
    pairwise distinct, the saved record replaces a note, the record passes
    the tag filter and the search, every [updatedAt] is a date and the
    record's is later than that of every other note, the view after the save
    starts with the saved record and continues with the other notes of the
    view in the order they had. *)
Theorem filteredNotes_after_save (s : AppState) (now : Z) :
  NoDup (noteIds s) ->
  In (Note.id u) (noteIds s) ->
  Date_getTime (Note.updatedAt u) = Some now ->
  (forall n, In n (notes s) ->
     exists t, time n = Some t /\ (Note.id n <> Note.id u -> (t < now)%Z)) ->
  tagMatches (activeTagId s) u /\
  searchMatches toLowerCase (searchTerm s) u ->
  exists rest,
    view (notes (dispatch (SaveNote u) s))
         (activeTagId (dispatch (SaveNote u) s))
         (searchTerm (dispatch (SaveNote u) s))
    = u :: rest /\
    Selects (fun n => Note.id n <> Note.id u)
            (view (notes s) (activeTagId s) (searchTerm s)) rest.
Proof using.
  intros Hnd Hin Hnow Hold Hvis.
  set (f := keepNote toLowerCase (activeTagId s) (searchTerm s)).
  assert (Hf : f u = true) by (apply keepNote_true_iff; exact Hvis).
  exists (filter others (view (notes s) (activeTagId s) (searchTerm s))).
  split; [|apply filter_Selects; intros n; apply others_true_iff].
  change (activeTagId (dispatch (SaveNote u) s)) with (activeTagId s).
  change (searchTerm (dispatch (SaveNote u) s)) with (searchTerm s).
  rewrite notes_SaveNote. unfold filteredNotes. fold f.
  assert (Hku : tkey u = now).
  { unfold timeKey, updatedTime. rewrite Hnow. reflexivity. }
  assert (Hlt : forall x, In x (notes s) -> Note.id x <> Note.id u ->
                          (tkey x < tkey u)%Z).
  { intros x Hx Ex. destruct (Hold x Hx) as [t [Et Ht]].
    rewrite Hku. unfold timeKey. rewrite Et. apply Ht, Ex. }
  assert (Hv0 : forall n, In n (filter f (notes s)) -> time n <> None).
  { intros n Hn. apply filter_In in Hn. destruct (Hold n (proj1 Hn)) as [t [Et _]].
    rewrite Et. discriminate. }
  assert (Hd0 := byUpdatedAtDesc_descending Date_getTime _ Hv0).
  symmetry. apply Array_sort_unique with (key := tkey).
  - apply byUpdatedAtDesc_descending. intros n Hn. apply filter_In in Hn.
    destruct Hn as [Hn _]. apply in_map_iff in Hn. destruct Hn as [x [Ex Hx]].
    destruct (strictEq (Note.id x) (Note.id u)); subst n.
    + unfold updatedTime. rewrite Hnow. discriminate.
    + destruct (Hold x Hx) as [t [Et _]]. rewrite Et. discriminate.
  - constructor.
    + apply StronglySorted_filter. apply Array_sort_sorted. exact Hd0.
    + apply Forall_forall. intros y Hy. apply filter_In in Hy.
      destruct Hy as [Hy Ho]. apply others_true_iff in Ho.
      apply Array_sort_In in Hy. apply filter_In in Hy.
      assert (H := Hlt y (proj1 Hy) Ho). lia.
  - intros k. rewrite filter_key_replace by assumption.
    cbn [filter]. rewrite (filter_filter_comm (keyIs tkey k) others).
    rewrite (Array_sort_stable k Hd0).
    destruct (keyIs tkey k u); reflexivity.
Qed.

End ViewAfterSave.

(** The theorem at an edit of the oldest sample note, saved after all the
    others were last updated. *)
Lemma filteredNotes_after_save_witness :
  exists rest,
    filteredNotes asciiToLowerCase isoGetTime
      (notes (dispatch (SaveNote (Note.mk (js "n5") (js "Draft") (js "v2") []
                                    (js "2024-02-01T12:00:00.000Z")
                                    (js "2024-03-07T09:00:00.000Z")))
                       Sample.loaded))
      (activeTagId (dispatch (SaveNote (Note.mk (js "n5") (js "Draft") (js "v2")
                                          [] (js "2024-02-01T12:00:00.000Z")
                                          (js "2024-03-07T09:00:00.000Z")))
                             Sample.loaded))
      (searchTerm (dispatch (SaveNote (Note.mk (js "n5") (js "Draft") (js "v2")
                                         [] (js "2024-02-01T12:00:00.000Z")
                                         (js "2024-03-07T09:00:00.000Z")))
                            Sample.loaded))
    = Note.mk (js "n5") (js "Draft") (js "v2") []
              (js "2024-02-01T12:00:00.000Z") (js "2024-03-07T09:00:00.000Z")
      :: rest /\
    Selects (fun n => Note.id n <> js "n5")
            (filteredNotes asciiToLowerCase isoGetTime (notes Sample.loaded)
               (activeTagId Sample.loaded) (searchTerm Sample.loaded))
            rest.
Proof.
  apply (@filteredNotes_after_save asciiToLowerCase isoGetTime
           (Note.mk (js "n5") (js "Draft") (js "v2") []
                    (js "2024-02-01T12:00:00.000Z")
                    (js "2024-03-07T09:00:00.000Z"))
           Sample.loaded 1709802000000%Z).
  - repeat constructor; simpl; intuition discriminate.
  - simpl. auto 10.
  - vm_compute. reflexivity.
  - intros n Hn. unfold Sample.loaded, Sample.fiveNotes in Hn. simpl in Hn.
    repeat (destruct Hn as [<-|Hn];
            [eexists; split;
             [vm_compute; reflexivity
             | intros H; first [reflexivity | exfalso; apply H; reflexivity]]|]).
    contradiction.
  - split; [exact I | left; reflexivity].
Defined.

(* ================================================================== *)
(** * How creation, save and deletion compose *)
(* ================================================================== *)

Lemma filter_id_absent (noteId : jsstring) (l : list Note) :
  ~ In noteId (List.map Note.id l) ->
  filter (fun n => negb (strictEq (Note.id n) noteId)) l = l.
Proof.
  intros H. apply filter_all. intros x Hx.
  rewrite negb_true_iff, <- not_true_iff_false, strictEq_true_iff.
  intros E. apply H. rewrite <- E. apply in_map. assumption.
Qed.

Lemma filter_id_present_length (noteId : jsstring) (l : list Note) :
  NoDup (List.map Note.id l) ->
  In noteId (List.map Note.id l) ->
  S (List.length (filter (fun n => negb (strictEq (Note.id n) noteId)) l))
  = List.length l.
Proof.
  induction l as [|x l IH]; intros Hnd Hin; [contradiction|].
  cbn [List.map] in Hnd, Hin. inversion Hnd as [|i ids Hx Hnd']; subst.
  cbn [filter]. destruct (strictEq (Note.id x) noteId) eqn:E; cbn [negb].
  - apply strictEq_true_iff in E. subst noteId.
    rewrite filter_id_absent by assumption. reflexivity.
  - cbn [List.length]. f_equal. apply IH; [assumption|].
    destruct Hin as [H|H]; [|exact H].
    exfalso. apply not_true_iff_false in E. apply E.
    apply strictEq_true_iff. exact H.
Qed.

(** X16: deleting an identifier that no note has leaves the collection as
    it is; when the identifiers are pairwise distinct, deleting the
    identifier of a note removes exactly one note. *)
Theorem handleDeleteNote_count (s : AppState) (noteId : jsstring) :
  (~ In noteId (noteIds s) ->
   notes (dispatch (DeleteNote noteId) s) = notes s) /\
  (NoDup (noteIds s) -> In noteId (noteIds s) ->
   S (List.length (notes (dispatch (DeleteNote noteId) s)))
   = List.length (notes s)).
Proof.
  rewrite notes_DeleteNote. split.
  - apply filter_id_absent.
  - apply filter_id_present_length.
Qed.

(** X17: creation undone.  Deleting a note right after it was created with
    a fresh identifier gives back the collection as it was before the
    creation, and no note is selected. *)
Theorem create_then_delete (s : AppState)
    (uuid createdNow updatedNow : jsstring) :
  ~ In uuid (noteIds s) ->
  notes (dispatch (DeleteNote uuid)
                  (dispatch (AddNote uuid createdNow updatedNow) s))
  = notes s /\
  activeNoteId (dispatch (DeleteNote uuid)
                         (dispatch (AddNote uuid createdNow updatedNow) s))
  = None /\
  tags (dispatch (DeleteNote uuid)
                 (dispatch (AddNote uuid createdNow updatedNow) s))
  = tags s.
Proof.
  intros Hf. split; [|split].
  - rewrite notes_DeleteNote, notes_AddNote. cbn [filter newNote Note.id].
    rewrite (proj2 (strictEq_true_iff uuid uuid) eq_refl). cbn [negb].
    apply filter_id_absent. exact Hf.
  - unfold dispatch at 1. unfold handle, handleDeleteNote.
    change (activeNoteId (dispatch (AddNote uuid createdNow updatedNow) s))
      with (Some uuid).
    rewrite (proj2 (strictEqNullable_true_iff _ _) eq_refl). reflexivity.
  - rewrite tags_other by reflexivity. reflexivity.
Qed.

(** The theorem at the creation of a sixth note in the sample state. *)
Lemma create_then_delete_witness :
  notes (dispatch (DeleteNote (js "n6"))
                  (dispatch (AddNote (js "n6") (js "2024-03-06T08:00:00.000Z")
                                     (js "2024-03-06T08:00:00.000Z"))
                            Sample.loaded))
  = notes Sample.loaded /\
  activeNoteId (dispatch (DeleteNote (js "n6"))
                  (dispatch (AddNote (js "n6") (js "2024-03-06T08:00:00.000Z")
                                     (js "2024-03-06T08:00:00.000Z"))
                            Sample.loaded))
  = None /\
  tags (dispatch (DeleteNote (js "n6"))
          (dispatch (AddNote (js "n6") (js "2024-03-06T08:00:00.000Z")
                             (js "2024-03-06T08:00:00.000Z"))
                    Sample.loaded))
  = tags Sample.loaded.
Proof.
  apply (@create_then_delete Sample.loaded (js "n6")
           (js "2024-03-06T08:00:00.000Z") (js "2024-03-06T08:00:00.000Z")).
  simpl. intuition discriminate.
Defined.

(** Deleting an unknown identifier changes nothing; deleting the second of
    the five sample notes leaves four. *)
Example handleDeleteNote_count_example :
  notes (dispatch (DeleteNote (js "n9")) Sample.loaded) = notes Sample.loaded /\
  List.length (notes (dispatch (DeleteNote (js "n2")) Sample.loaded)) = 4.
Proof. split; reflexivity. Qed.

Lemma replace_twice (u : Note) (l : list Note) :
  List.map (fun n => if strictEq (Note.id n) (Note.id u) then u else n)
    (List.map (fun n => if strictEq (Note.id n) (Note.id u) then u else n) l)
  = List.map (fun n => if strictEq (Note.id n) (Note.id u) then u else n) l.
Proof.
  rewrite map_map. apply map_ext. intros n.
  destruct (strictEq (Note.id n) (Note.id u)) eqn:E.
  - rewrite (proj2 (strictEq_true_iff (Note.id u) (Note.id u)) eq_refl).
    reflexivity.
  - rewrite E. reflexivity.
Qed.

Lemma filter_twice (A : Type) (f : A -> bool) (l : list A) :
  filter f (filter f l) = filter f l.
Proof.
  apply filter_all. intros x Hx. apply filter_In in Hx. apply Hx.
Qed.

(** X18: saving the same record twice, or deleting the same identifier
    twice, leaves the state the first save or deletion led to. *)
Theorem save_and_delete_idempotent (s : AppState) :
  (forall u, dispatch (SaveNote u) (dispatch (SaveNote u) s)
             = dispatch (SaveNote u) s) /\
  (forall noteId, dispatch (DeleteNote noteId) (dispatch (DeleteNote noteId) s)
                  = dispatch (DeleteNote noteId) s).
Proof.
  split.
  - intros u. unfold dispatch, handle, handleSaveNote.
    cbn [applyActions fold_left applyAction notes tags activeNoteId activeTagId
         searchTerm isSidebarOpen isInitialized isAskGeminiModalOpen].
    rewrite replace_twice. reflexivity.
  - intros noteId. unfold dispatch, handle, handleDeleteNote.
    destruct (strictEqNullable (activeNoteId s) (Some noteId)) eqn:E;
      cbn [applyActions fold_left applyAction notes tags activeNoteId
           activeTagId searchTerm isSidebarOpen isInitialized
           isAskGeminiModalOpen strictEqNullable];
      rewrite ?E;
      cbn [applyActions fold_left applyAction notes tags activeNoteId
           activeTagId searchTerm isSidebarOpen isInitialized
           isAskGeminiModalOpen];
      rewrite filter_twice; reflexivity.
Qed.

(** The theorem at a run on an empty store in which a note is created: the
    editor is open on the new note. *)
Lemma render_after_mount_witness :
  exists s t,
    runApp (mkWorld (fun _ => Returned None) (fun _ _ => Returned tt))
           [(Sample.denied, AddNote (js "n6") (js "2024-03-06T08:00:00.000Z")
                                    (js "2024-03-06T08:00:00.000Z"))]
    = Some (s, t) /\
    exists main,
      render asciiToLowerCase isoGetTime s
      = Shown (Sidebar.mk (tags s) (activeTagId s) (isSidebarOpen s))
              main
              (AskGeminiModal.mk (isAskGeminiModalOpen s) (notes s)) /\
      ((exists n, main = EditorView (NoteEditor.mk n (tags s)) /\
                  In n (notes s) /\ activeNoteId s = Some (Note.id n)) \/
       (main = ListView (NoteList.mk
                           (filteredNotes asciiToLowerCase isoGetTime (notes s)
                                          (activeTagId s) (searchTerm s))
                           (tags s) (searchTerm s)) /\
        forall n, In n (notes s) -> activeNoteId s <> Some (Note.id n))).
Proof.
  eexists. eexists. split; [reflexivity|].
  eapply (@render_after_mount asciiToLowerCase isoGetTime
            (mkWorld (fun _ => Returned None) (fun _ _ => Returned tt))
            [(Sample.denied, AddNote (js "n6") (js "2024-03-06T08:00:00.000Z")
                                     (js "2024-03-06T08:00:00.000Z"))]).
  reflexivity.
Defined.

(** After the creation of a note in the sample state the editor is open on
    it; with a selection that names no note the list is shown. *)
Example render_example :
  render asciiToLowerCase isoGetTime
    (dispatch (AddNote (js "n6") (js "2024-03-06T08:00:00.000Z")
                       (js "2024-03-06T08:00:00.000Z")) Sample.loaded)
  = Shown (Sidebar.mk [Sample.work] None false)
          (EditorView
             (NoteEditor.mk (Note.mk (js "n6") [] [] []
                               (js "2024-03-06T08:00:00.000Z")
                               (js "2024-03-06T08:00:00.000Z"))
                            [Sample.work]))
          (AskGeminiModal.mk false
             (Note.mk (js "n6") [] [] [] (js "2024-03-06T08:00:00.000Z")
                      (js "2024-03-06T08:00:00.000Z") :: Sample.fiveNotes)) /\
  render asciiToLowerCase isoGetTime
    (dispatch (SelectNote (Some (js "n9"))) Sample.loaded)
  = Shown (Sidebar.mk [Sample.work] None false)
          (ListView
             (NoteList.mk [Sample.groceries; Sample.travel; Sample.ideas;
                           Sample.meeting; Sample.draft]
                          [Sample.work] []))
          (AskGeminiModal.mk false Sample.fiveNotes) /\
  render asciiToLowerCase isoGetTime initialState = Loading.
Proof. repeat split; vm_compute; reflexivity. Qed.
